(** * Panther Cloud Air: airport reference and flight-network generator

    A shallow embedding of [airport_reference.py] and [flight_network.py].

    - Python [float] is IEEE-754 binary64.  It is modelled by [spec_float]
      with the binary64 operations of the kernel's float specification
      ([SFadd prec emax] and friends): signed zeros, infinities and NaN are
      all there, and the operations round to nearest even.
    - Python [str] is modelled by [string], the UTF-8 encoding of the text.
      The methods [str.upper] and [str.lower] follow the Unicode tables,
      which are not part of the program: they are parameters of the model,
      gathered in a record with what the program relies on (on ASCII text
      they are the ASCII case maps).
    - The airport dictionary is a [gmap]; the set of processed pairs is a
      [gset].  Lists are Python lists, [append] adds at the end.
    - The functions of Python's [math] module used by the haversine formula
      are parameters of the model, gathered in a record.  They return a
      float or raise: [ValueError] for [sin], [cos], [sqrt] and [asin]
      outside their domains, [OverflowError] for the power.  A function that
      calls them returns an [outcome], a value or the exception raised.
    - [list.sort] is CPython's, for the short lists that the program sorts:
      the run at the start of the list, then binary insertion.
    - [print] calls are left out. *)

From Stdlib Require Import ZArith Lia Bool List String Ascii Sorted.
From Stdlib Require Import Floats.PrimFloat Floats.SpecFloat Floats.FloatOps.
From stdpp Require Import gmap strings list sorting.

Set Warnings "-inexact-float".
Open Scope string_scope.
Open Scope list_scope.

(** ** Python floats *)

Module PyFloat.

Abbreviation float := spec_float.

(** A float literal of the source, as the binary64 value nearest to it. *)
Definition lit (x : PrimFloat.float) : float := Prim2SF x.

Definition zero : float := S754_zero false.
(** [float('inf')] *)
Definition inf : float := S754_infinity false.

(** [float('nan')] *)
Definition nan : float := S754_nan.

Definition add : float -> float -> float := SFadd prec emax.
Definition sub : float -> float -> float := SFsub prec emax.
Definition mul : float -> float -> float := SFmul prec emax.
(** [x / y].  Python raises [ZeroDivisionError] when [y == 0]; the program
    divides only under the guard [hub_distance > 0], where both agree. *)
Definition div : float -> float -> float := SFdiv prec emax.

Definition ltb : float -> float -> bool := SFltb.
Definition leb : float -> float -> bool := SFleb.
Definition eqb : float -> float -> bool := SFeqb.
(** [x > y] and [x >= y] are [y < x] and [y <= x]. *)
Definition gtb (x y : float) : bool := SFltb y x.
Definition geb (x y : float) : bool := SFleb y x.

Definition is_nan (x : float) : bool :=
  match x with S754_nan => true | _ => false end.

Definition is_infinity (x : float) : bool :=
  match x with S754_infinity _ => true | _ => false end.

Definition is_finite (x : float) : bool :=
  match x with
  | S754_zero _ | S754_finite _ _ _ => true
  | S754_infinity _ | S754_nan => false
  end.

(** Truth value of a float: [bool(x)] is [x != 0.0]; NaN is true, both
    zeros are false. *)
Definition truth (x : float) : bool := negb (eqb x zero).

(** Truth value of an [Optional[float]]: [None] is false. *)
Definition truthy (d : option float) : bool :=
  match d with
  | None => false
  | Some x => truth x
  end.

(** The constants of the program. *)
Definition f0_85 : float := Eval vm_compute in lit 0.85.
Definition f1 : float := Eval vm_compute in lit 1.0.
Definition f2 : float := Eval vm_compute in lit 2.
Definition f150 : float := Eval vm_compute in lit 150.
Definition f1000 : float := Eval vm_compute in lit 1000.
Definition f1_60934 : float := Eval vm_compute in lit 1.60934.
Definition f3958_8 : float := Eval vm_compute in lit 3958.8.

End PyFloat.

Import PyFloat.

(** ** Python strings *)

Module PyStr.

Definition upper_char (c : ascii) : ascii :=
  let n := nat_of_ascii c in
  if (97 <=? n)%nat && (n <=? 122)%nat then ascii_of_nat (n - 32) else c.

Definition lower_char (c : ascii) : ascii :=
  let n := nat_of_ascii c in
  if (65 <=? n)%nat && (n <=? 90)%nat then ascii_of_nat (n + 32) else c.

Fixpoint map_string (f : ascii -> ascii) (s : string) : string :=
  match s with
  | EmptyString => EmptyString
  | String c s' => String (f c) (map_string f s')
  end.

(** The case maps of the ASCII letters; every other byte is left as it is. *)
Definition ascii_upper : string -> string := map_string upper_char.
Definition ascii_lower : string -> string := map_string lower_char.

(** The text is ASCII: every byte is below 128. *)
Fixpoint is_ascii (s : string) : bool :=
  match s with
  | EmptyString => true
  | String c s' => (nat_of_ascii c <? 128)%nat && is_ascii s'
  end.

(** Two texts that differ at most in the case of their ASCII letters. *)
Definition same_letters (s t : string) : Prop := ascii_lower s = ascii_lower t.

(** [s.upper()] and [s.lower()].  They map each character by the Unicode
    tables (the Kelvin sign lower-cases to [k], the long s upper-cases to
    [S]), so they are parameters.  What the program relies on is that they
    are the ASCII case maps on ASCII text, and that [upper] maps each
    character on its own, so that two texts that differ only in the case of
    ASCII letters have the same upper-case form. *)
Record StrModule := mkStr {
  str_upper : string -> string;
  str_lower : string -> string;
  str_upper_ascii : ∀ s, is_ascii s = true -> str_upper s = ascii_upper s;
  str_lower_ascii : ∀ s, is_ascii s = true -> str_lower s = ascii_lower s;
  str_upper_letters : ∀ s t, same_letters s t -> str_upper s = str_upper t
}.

(** [s.lower() == t.lower()]: equal up to case. *)
Definition eq_nocase (str : StrModule) (s t : string) : Prop :=
  str_lower str s = str_lower str t.

End PyStr.

(** ** Python exceptions *)

Module PyExc.

(** The exceptions that the [math] calls of the program raise. *)
Inductive exception :=
  | ValueError
  | OverflowError.

(** The outcome of a call: the value returned or the exception raised. *)
Inductive outcome (A : Type) :=
  | Return (a : A)
  | Raise (e : exception).

Arguments Return {A} a.
Arguments Raise {A} e.

#[global] Instance outcome_ret : MRet outcome := fun A a => Return a.

#[global] Instance outcome_bind : MBind outcome := fun A B f m =>
  match m with
  | Return a => f a
  | Raise e => Raise e
  end.

(** A call that raises the exception [e] where the function has no value. *)
Definition raising {A : Type} (e : exception) (r : option A) : outcome A :=
  match r with
  | Some a => Return a
  | None => Raise e
  end.

End PyExc.

(** ** airport_reference.py *)

Module AirportReference.

Import PyStr PyExc.

Record Airport := mkAirport {
  iata : string;
  name : string;
  city : string;
  state : string;
  latitude : float;
  longitude : float;
  metro_area : string
}.

Definition airport (iata name city state : string)
    (latitude longitude : PrimFloat.float) (metro_area : string) : Airport :=
  mkAirport iata name city state (lit latitude) (lit longitude) metro_area.

(** The entries of the [AIRPORTS] dictionary literal, in source order. *)
Definition AIRPORTS_items : list (string * Airport) := Eval vm_compute in
  [ ("ATL", airport "ATL" "Hartsfield-Jackson Atlanta International Airport"
              "Atlanta" "GA" 33.6407 (-84.4277) "Metro Atlanta");
    ("DFW", airport "DFW" "Dallas/Fort Worth International Airport"
              "Dallas and Fort Worth" "TX" 32.8998 (-97.0403) "Dallas–Fort Worth");
    ("DEN", airport "DEN" "Denver International Airport"
              "Denver" "CO" 39.8561 (-104.6737) "Greater Denver");
    ("ORD", airport "ORD" "O'Hare International Airport"
              "Chicago" "IL" 41.9786 (-87.9048) "Chicagoland");
    ("LAX", airport "LAX" "Los Angeles International Airport"
              "Los Angeles" "CA" 33.9425 (-118.4081) "Greater Los Angeles");
    ("JFK", airport "JFK" "John F. Kennedy International Airport"
              "New York City" "NY" 40.6413 (-73.7781) "New York Metro");
    ("CLT", airport "CLT" "Charlotte Douglas International Airport"
              "Charlotte" "NC" 35.2144 (-80.9473) "Greater Charlotte");
    ("LAS", airport "LAS" "Harry Reid International Airport"
              "Las Vegas" "NV" 36.0840 (-115.1537) "Las Vegas Valley");
    ("MCO", airport "MCO" "Orlando International Airport"
              "Orlando" "FL" 28.4312 (-81.3083) "Greater Orlando");
    ("MIA", airport "MIA" "Miami International Airport"
              "Miami" "FL" 25.7959 (-80.2870) "Miami Metro");
    ("PHX", airport "PHX" "Phoenix Sky Harbor International Airport"
              "Phoenix" "AZ" 33.4342 (-112.0116) "Metro Phoenix");
    ("SEA", airport "SEA" "Seattle-Tacoma International Airport"
              "Seattle and Tacoma" "WA" 47.4502 (-122.3088) "Seattle Metro");
    ("SFO", airport "SFO" "San Francisco International Airport"
              "San Francisco" "CA" 37.6213 (-122.3790) "San Francisco Bay Area");
    ("EWR", airport "EWR" "Newark Liberty International Airport"
              "Newark and New York City" "NJ" 40.6895 (-74.1745) "New York Metro");
    ("IAH", airport "IAH" "George Bush Intercontinental Airport"
              "Houston" "TX" 29.9844 (-95.3414) "Greater Houston");
    ("BOS", airport "BOS" "Logan International Airport"
              "Boston" "MA" 42.3656 (-71.0096) "Greater Boston");
    ("MSP", airport "MSP" "Minneapolis-Saint Paul International Airport"
              "Minneapolis and Saint Paul" "MN" 44.8848 (-93.2223) "Minneapolis–Saint Paul");
    ("FLL", airport "FLL" "Fort Lauderdale-Hollywood International Airport"
              "Fort Lauderdale and Hollywood" "FL" 26.0712 (-80.1528) "Miami Metro");
    ("LGA", airport "LGA" "LaGuardia Airport"
              "New York City" "NY" 40.7769 (-73.8740) "New York Metro");
    ("DTW", airport "DTW" "Detroit Metropolitan Airport"
              "Detroit" "MI" 42.2162 (-83.3554) "Detroit Metro");
    ("PHL", airport "PHL" "Philadelphia International Airport"
              "Philadelphia" "PA" 39.8719 (-75.2411) "Philadelphia Metro");
    ("SLC", airport "SLC" "Salt Lake City International Airport"
              "Salt Lake City" "UT" 40.7899 (-111.9791) "Wasatch Front");
    ("BWI", airport "BWI" "Baltimore-Washington International Airport"
              "Baltimore and Washington, D.C." "MD" 39.1774 (-76.6684) "Baltimore metropolitan area");
    ("IAD", airport "IAD" "Dulles International Airport"
              "Washington, D.C." "VA" 38.9531 (-77.4565) "Washington Metro");
    ("SAN", airport "SAN" "San Diego International Airport"
              "San Diego" "CA" 32.7338 (-117.1933) "Greater San Diego");
    ("DCA", airport "DCA" "Ronald Reagan Washington National Airport"
              "Washington, D.C." "VA" 38.8512 (-77.0402) "Washington Metro");
    ("TPA", airport "TPA" "Tampa International Airport"
              "Tampa" "FL" 27.9755 (-82.5332) "Tampa Bay area");
    ("BNA", airport "BNA" "Nashville International Airport"
              "Nashville" "TN" 36.1263 (-86.6774) "Greater Nashville");
    ("AUS", airport "AUS" "Austin-Bergstrom International Airport"
              "Austin" "TX" 30.1945 (-97.6699) "Greater Austin");
    ("HNL", airport "HNL" "Daniel K. Inouye International Airport"
              "Honolulu" "HI" 21.3206 (-157.9242) "Oahu");
    ("CDG", airport "CDG" "Charles de Gaulle Airport"
              "Paris" "France" 49.0097 2.5479 "Paris Metropolitan Area") ].

Definition AIRPORTS : gmap string Airport := list_to_map AIRPORTS_items.

(** The dictionary returned by [get_airport_info]. *)
Record AirportInfo := mkAirportInfo {
  info_iata : string;
  info_name : string;
  info_city : string;
  info_state : string;
  info_metro_area : string;
  info_latitude : float;
  info_longitude : float;
  info_coordinates : float * float
}.

(** The dictionaries under ['origin'] and ['destination'] in the result of
    [get_route_info], and that result. *)
Record RouteEndpoint := mkRouteEndpoint {
  end_iata : string;
  end_name : string;
  end_city : string;
  end_state : string;
  end_coordinates : float * float
}.

Record RouteInfo := mkRouteInfo {
  route_origin : RouteEndpoint;
  route_destination : RouteEndpoint;
  route_distance_miles : option float;
  route_distance_kilometers : option float
}.

Definition route_endpoint (airport : Airport) : RouteEndpoint :=
  mkRouteEndpoint (iata airport) (name airport) (city airport) (state airport)
    (latitude airport, longitude airport).

(** The functions of the [math] module that the program calls, and the
    square [x ** 2].  [None] is where the call raises: [ValueError] for
    [sin] and [cos] (at an infinity), [asin] (outside [-1, 1]) and [sqrt]
    (below zero), [OverflowError] for the square.  [radians] always
    returns. *)
Record MathModule := mkMath {
  math_radians : float -> float;
  math_sin : float -> option float;
  math_cos : float -> option float;
  math_asin : float -> option float;
  math_sqrt : float -> option float;
  square : float -> option float
}.

Section Reference.

Variable str : StrModule.

(** [AIRPORTS.get(iata.upper())] *)
Definition get_airport (iata : string) : option Airport :=
  AIRPORTS !! str_upper str iata.

Definition get_coordinates (iata : string) : option (float * float) :=
  match get_airport iata with
  | Some airport => Some (latitude airport, longitude airport)
  | None => None
  end.

Definition get_airport_info (iata : string) : option AirportInfo :=
  match get_airport iata with
  | None => None
  | Some (mkAirport code name city state latitude longitude metro_area) =>
      Some (mkAirportInfo code name city state metro_area latitude longitude
              (latitude, longitude))
  end.

Section Distance.

Variable math : MathModule.

(** The term [a] of the haversine formula; the calls are made from left to
    right. *)
Definition haversine_a (lat1 lon1 lat2 lon2 : float) : outcome float :=
  let lat1_rad := math_radians math lat1 in
  let lon1_rad := math_radians math lon1 in
  let lat2_rad := math_radians math lat2 in
  let lon2_rad := math_radians math lon2 in
  let dlat := sub lat2_rad lat1_rad in
  let dlon := sub lon2_rad lon1_rad in
  sin_dlat ← raising ValueError (math_sin math (div dlat f2));
  square_dlat ← raising OverflowError (square math sin_dlat);
  cos_lat1 ← raising ValueError (math_cos math lat1_rad);
  cos_lat2 ← raising ValueError (math_cos math lat2_rad);
  sin_dlon ← raising ValueError (math_sin math (div dlon f2));
  square_dlon ← raising OverflowError (square math sin_dlon);
  mret (add square_dlat (mul (mul cos_lat1 cos_lat2) square_dlon)).

Definition haversine_distance (lat1 lon1 lat2 lon2 : float) : outcome float :=
  let R := f3958_8 in
  a ← haversine_a lat1 lon1 lat2 lon2;
  root ← raising ValueError (math_sqrt math a);
  angle ← raising ValueError (math_asin math root);
  let c := mul f2 angle in
  let distance := mul R c in
  mret distance.

(** [unit.lower() == 'kilometers' or unit.lower() == 'km'] *)
Definition unit_is_km (unit : string) : bool :=
  bool_decide (str_lower str unit = "kilometers")
  || bool_decide (str_lower str unit = "km").

Definition get_distance (iata1 iata2 : string) (unit : string)
    : outcome (option float) :=
  let airport1 := get_airport iata1 in
  let airport2 := get_airport iata2 in
  match airport1, airport2 with
  | Some airport1, Some airport2 =>
      distance_miles ←
        haversine_distance (latitude airport1) (longitude airport1)
                           (latitude airport2) (longitude airport2);
      if unit_is_km unit then mret (Some (mul distance_miles f1_60934))
      else mret (Some distance_miles)
  | _, _ => mret None
  end.

Definition get_route_info (iata1 iata2 : string) : outcome (option RouteInfo) :=
  match get_airport iata1, get_airport iata2 with
  | Some airport1, Some airport2 =>
      distance_miles ← get_distance iata1 iata2 "miles";
      distance_km ← get_distance iata1 iata2 "kilometers";
      mret (Some (mkRouteInfo (route_endpoint airport1) (route_endpoint airport2)
                    distance_miles distance_km))
  | _, _ => mret None
  end.

(** [get_distance(iata1, iata2)], with the default unit: the call of
    flight_network.py. *)
Definition get_distance_miles (iata1 iata2 : string) : outcome (option float) :=
  get_distance iata1 iata2 "miles".

End Distance.

End Reference.

(** [list_all_airports()]: a copy of the dictionary. *)
Definition list_all_airports : gmap string Airport := AIRPORTS.

End AirportReference.

(** Vocabulary for the properties of airport_reference.py. *)
Module ReferenceProps.

Import PyExc AirportReference.



End ReferenceProps.

(** ** flight_network.py *)

Module FlightNetwork.

(** Top 30 US airports (CDG is left out of the network). *)
Definition US_AIRPORTS : list string :=
  [ "ATL"; "DFW"; "DEN"; "ORD"; "LAX"; "JFK"; "CLT"; "LAS"; "MCO"; "MIA";
    "PHX"; "SEA"; "SFO"; "EWR"; "IAH"; "BOS"; "MSP"; "FLL"; "LGA"; "DTW";
    "PHL"; "SLC"; "BWI"; "IAD"; "SAN"; "DCA"; "TPA"; "BNA"; "AUS"; "HNL" ].

Definition MAJOR_HUBS : list string := [ "ATL"; "DFW"; "DEN"; "ORD" ].

Record Flight := mkFlight {
  origin : string;
  destination : string;
  distance : float;
  is_direct : bool;
  via_hub : option string
}.

(** [Flight(origin, destination, distance, is_direct=True)] *)
Definition direct_flight (origin destination : string) (distance : float) : Flight :=
  mkFlight origin destination distance true None.

(** The local state of [generate_flight_network]. *)
Record state := mkState {
  flights : list Flight;
  processed_pairs : gset (string * string)
}.

(** [flights.append(f)] *)
Definition append (f : Flight) (st : state) : state :=
  mkState (flights st ++ [f]) (processed_pairs st).

(** [processed_pairs.add((a, b))] *)
Definition mark (a b : string) (st : state) : state :=
  mkState (flights st) ({[ (a, b) ]} ∪ processed_pairs st).

Section Network.

(** [get_distance(a, b)] of airport_reference, in miles: what the call
    returns ([AirportReference.get_distance_miles], where it does not
    raise), [None] when a code is not in the catalog. *)
Variable get_distance : string -> string -> option float.

(** One turn of the loop of [calculate_minimum_distance_through_hubs];
    the accumulator is [(min_distance, best_hub)]. *)
Definition hub_step (origin destination : string)
    (acc : float * option string) (hub : string) : float * option string :=
  if bool_decide (hub = origin ∨ hub = destination) then acc
  else
    match get_distance origin hub, get_distance hub destination with
    | Some dist1, Some dist2 =>
        if truth dist1 && truth dist2 then
          let total_distance := add dist1 dist2 in
          if ltb total_distance (fst acc) then (total_distance, Some hub)
          else acc
        else acc
    | _, _ => acc
    end.

Definition calculate_minimum_distance_through_hubs
    (origin destination : string) (hubs : list string) : float * option string :=
  fold_left (hub_step origin destination) hubs (inf, None).

Definition should_create_direct_flight (origin destination : string)
    (direct_distance : float) (hubs : list string) : bool :=
  if ltb direct_distance f150 then false
  else
    let hub_distance :=
      fst (calculate_minimum_distance_through_hubs origin destination hubs) in
    if ltb direct_distance f1000 then true
    else
      let efficiency_ratio :=
        if gtb hub_distance zero then div direct_distance hub_distance
        else f1 in
      leb efficiency_ratio f0_85.

(** *** 1. hub-to-hub connections *)

Definition hub_pair_step (hub1 : string) (st : state) (hub2 : string) : state :=
  match get_distance hub1 hub2 with
  | Some distance =>
      if truth distance && geb distance f150 then
        mark hub2 hub1 (mark hub1 hub2
          (append (direct_flight hub1 hub2 distance) st))
      else st
  | None => st
  end.

(** [for i, hub1 in enumerate(hubs): for hub2 in hubs[i+1:]: ...] *)
Fixpoint hub_to_hub (hubs : list string) (st : state) : state :=
  match hubs with
  | [] => st
  | hub1 :: rest => hub_to_hub rest (fold_left (hub_pair_step hub1) rest st)
  end.

(** *** 2. airport-to-hub connections *)

Definition spoke_step (airport : string) (st : state) (hub : string) : state :=
  match get_distance airport hub with
  | Some distance =>
      if truth distance && geb distance f150 then
        mark hub airport (mark airport hub
          (append (direct_flight hub airport distance)
            (append (direct_flight airport hub distance) st)))
      else st
  | None => st
  end.

Definition airport_step (hubs : list string) (st : state) (airport : string) : state :=
  if bool_decide (airport ∈ hubs) then st
  else fold_left (spoke_step airport) hubs st.

Definition airport_to_hub (hubs airports : list string) (st : state) : state :=
  fold_left (airport_step hubs) airports st.

(** *** 3. direct flights between non-hub airports *)

Definition direct_pair_step (hubs : list string) (origin : string)
    (st : state) (destination : string) : state :=
  if bool_decide ((origin, destination) ∈ processed_pairs st) then st
  else if bool_decide (origin ∈ hubs) && bool_decide (destination ∈ hubs) then st
  else if bool_decide (origin ∈ hubs) || bool_decide (destination ∈ hubs) then st
  else
    match get_distance origin destination with
    | Some direct_distance =>
        if truth direct_distance && geb direct_distance f150 then
          if should_create_direct_flight origin destination direct_distance hubs
          then
            mark destination origin (mark origin destination
              (append (direct_flight destination origin direct_distance)
                (append (direct_flight origin destination direct_distance) st)))
          else st
        else st
    | None => st
    end.

(** [for i, origin in enumerate(airports): for destination in airports[i+1:]: ...] *)
Fixpoint direct_pairs (hubs airports : list string) (st : state) : state :=
  match airports with
  | [] => st
  | origin :: rest =>
      direct_pairs hubs rest (fold_left (direct_pair_step hubs origin) rest st)
  end.

(** The three passes over a hub list and an airport list. *)
Definition generate (hubs airports : list string) : state :=
  direct_pairs hubs airports
    (airport_to_hub hubs airports
      (hub_to_hub hubs (mkState [] ∅))).

(** The state of [generate_flight_network] at its [return]. *)
Definition generate_flight_network_state : state :=
  generate MAJOR_HUBS US_AIRPORTS.

Definition generate_flight_network : list Flight :=
  flights generate_flight_network_state.

End Network.

(** *** Route options *)

Record RouteOption := mkRouteOption {
  opt_type : string;
  opt_route : list string;
  opt_distance : float;
  opt_stops : Z;
  opt_hub : option string
}.

(** [[f for f in flights if f.origin == a and f.destination == b]] *)
Definition legs (a b : string) (flights : list Flight) : list Flight :=
  List.filter (fun f => bool_decide (origin f = a) && bool_decide (destination f = b))
              flights.

Definition direct_option (origin destination : string)
    (flights : list Flight) : list RouteOption :=
  match List.filter is_direct (legs origin destination flights) with
  | f :: _ => [ mkRouteOption "direct" [origin; destination] (distance f) 0 None ]
  | [] => []
  end.

Definition hub_option (origin destination : string)
    (flights : list Flight) (hub : string) : list RouteOption :=
  if bool_decide (hub = origin ∨ hub = destination) then []
  else
    match legs origin hub flights, legs hub destination flights with
    | leg1 :: _, leg2 :: _ =>
        let total_distance := add (distance leg1) (distance leg2) in
        [ mkRouteOption "hub_connection" [origin; hub; destination]
            total_distance 1 (Some hub) ]
    | _, _ => []
    end.

(** [x['distance'] < y['distance']], the one comparison of the sort. *)
Definition key_lt (x y : RouteOption) : bool :=
  ltb (opt_distance x) (opt_distance y).

(** The loops of [count_run]: the longest prefix in which no element is
    less than the one before it, and the longest prefix in which every
    element is less than the one before it; [prev] is the element before
    the list. *)
Fixpoint ascending_run (prev : RouteOption) (l : list RouteOption)
    : list RouteOption * list RouteOption :=
  match l with
  | [] => ([], [])
  | x :: l' =>
      if key_lt x prev then ([], l)
      else let (run, rest) := ascending_run x l' in (x :: run, rest)
  end.

Fixpoint descending_run (prev : RouteOption) (l : list RouteOption)
    : list RouteOption * list RouteOption :=
  match l with
  | [] => ([], [])
  | x :: l' =>
      if key_lt x prev
      then let (run, rest) := descending_run x l' in (x :: run, rest)
      else ([], l)
  end.

(** The run at the start of the list, reversed when it is descending, and
    the rest of the list. *)
Definition count_run (l : list RouteOption)
    : list RouteOption * list RouteOption :=
  match l with
  | x :: y :: l' =>
      if key_lt y x
      then let (run, rest) := descending_run y l' in (rev (x :: y :: run), rest)
      else let (run, rest) := ascending_run y l' in (x :: y :: run, rest)
  | _ => (l, [])
  end.

(** The binary search of [binarysort] and the insertion of the pivot where
    it ends: the middle element of the interval is compared with the pivot
    and the search goes on in the half before it or in the half after it.
    The interval loses an element at each step, so [length a] is fuel
    enough. *)
Fixpoint binary_insert (fuel : nat) (pivot : RouteOption)
    (a : list RouteOption) : list RouteOption :=
  match fuel with
  | O => pivot :: a
  | S fuel' =>
      let p := (length a / 2)%nat in
      match a !! p with
      | None => pivot :: a
      | Some y =>
          if key_lt pivot y
          then binary_insert fuel' pivot (take p a) ++ drop p a
          else take (S p) a ++ binary_insert fuel' pivot (drop (S p) a)
      end
  end.

Definition binarysort (run rest : list RouteOption) : list RouteOption :=
  fold_left (fun a pivot => binary_insert (length a) pivot a) rest run.

(** [options.sort(key=lambda x: x['distance'])] on a list of fewer than 64
    elements, which [get_route_options] always has: one run is found at the
    start, and the elements after it are inserted one by one.  The keys are
    compared with [<] only.  The run is the one that CPython finds up to
    version 3.12; from 3.13 on a descending run may hold equal keys, which
    gives the same list when no key is NaN and when no element of the list
    is less than the one before it. *)
Definition sort_by_distance (l : list RouteOption) : list RouteOption :=
  let (run, rest) := count_run l in binarysort run rest.

Definition route_options (hubs : list string) (origin destination : string)
    (flights : list Flight) : list RouteOption :=
  sort_by_distance
    (direct_option origin destination flights
       ++ flat_map (hub_option origin destination flights) hubs).

Definition get_route_options (origin destination : string)
    (flights : list Flight) : list RouteOption :=
  route_options MAJOR_HUBS origin destination flights.

(** *** Constraint check *)

Section Auditor.

(** [f"{x:.2f}"] *)
Variable format_2f : float -> string.

Definition violation (flight : Flight) : string :=
  origin flight ++ " -> " ++ destination flight ++ ": "
    ++ format_2f (distance flight) ++ " miles".

Definition verify_step (violations : list string) (flight : Flight) : list string :=
  if ltb (distance flight) f150 then violations ++ [violation flight]
  else violations.

Definition verify_network_constraints (flights : list Flight) : bool * list string :=
  let violations := fold_left verify_step flights [] in
  (Nat.eqb (length violations) 0, violations).

End Auditor.

(** *** Statistics *)

(** A Python number: an [int] or a [float]. *)
Inductive number :=
  | Int (n : Z)
  | Float (x : float).

(** [float(n)] for an [int] within the range of binary64, rounded to
    nearest even. *)
Definition float_of_int (n : Z) : float := binary_normalize prec emax n 0 false.

(** [len(l)] *)
Definition len {A : Type} (l : list A) : Z := Z.of_nat (length l).

(** [tuple(sorted([flight.origin, flight.destination]))] *)
Definition sorted_pair (flight : Flight) : string * string :=
  if String.ltb (destination flight) (origin flight)
  then (destination flight, origin flight)
  else (origin flight, destination flight).

(** The dictionary returned by [analyze_network_statistics]. *)
Record Statistics := mkStatistics {
  total_flights : Z;
  unique_routes : Z;
  direct_flights : Z;
  hub_connections : Z;
  total_network_distance : number;
  average_flight_distance : number;
  stat_hubs : list string;
  airports_served : Z
}.

Section Statistics.

(** [sum] over a non-empty sequence of floats.  Its rounding depends on the
    version of Python (from left to right before 3.12, compensated from 3.12
    on), so it is a parameter. *)
Variable float_sum : list float -> float.

(** [round(x, 2)] on a float. *)
Variable round_2 : float -> float.

(** [round(v, 2)]: an [int] is returned as it is. *)
Definition round_number (v : number) : number :=
  match v with
  | Int n => Int n
  | Float x => Float (round_2 x)
  end.

(** [sum(f.distance for f in flights)]: the [int] 0 on the empty list. *)
Definition sum_distances (flights : list Flight) : number :=
  match flights with
  | [] => Int 0
  | _ :: _ => Float (float_sum (map distance flights))
  end.

(** [total_distance / len(flights) if flights else 0]; on a non-empty list
    the total is the float sum. *)
Definition mean_distance (flights : list Flight) : number :=
  match flights with
  | [] => Int 0
  | _ :: _ =>
      Float (div (float_sum (map distance flights)) (float_of_int (len flights)))
  end.

(** The loop that fills [unique_pairs]. *)
Definition unique_pairs (flights : list Flight) : gset (string * string) :=
  fold_left (fun pairs flight => {[ sorted_pair flight ]} ∪ pairs) flights ∅.

Definition analyze_network_statistics (flights : list Flight) : Statistics :=
  let direct_flights := List.filter is_direct flights in
  let hub_connections :=
    len (List.filter (fun f => bool_decide (origin f ∈ MAJOR_HUBS)
                               || bool_decide (destination f ∈ MAJOR_HUBS))
                     flights) in
  let total_distance := sum_distances flights in
  let avg_distance := mean_distance flights in
  mkStatistics
    (len flights)
    (Z.of_nat (size (unique_pairs flights)))
    (len direct_flights)
    hub_connections
    (round_number total_distance)
    (round_number avg_distance)
    MAJOR_HUBS
    (len US_AIRPORTS).

End Statistics.

End FlightNetwork.


(** ** Vocabulary of the properties *)

Module Props.

Import FlightNetwork.

(** The pairs [(l[i], l[j])] with [i < j], in the order in which the nested
    loops [for i, x in enumerate(l): for y in l[i+1:]] visit them. *)
Fixpoint ordered_pairs {A : Type} (l : list A) : list (A * A) :=
  match l with
  | [] => []
  | x :: rest => map (pair x) rest ++ ordered_pairs rest
  end.

(** The pairs [(airport, hub)] visited by the airport-to-hub loops. *)
Definition spoke_pairs (hubs airports : list string) : list (string * string) :=
  flat_map (fun airport =>
              if bool_decide (airport ∈ hubs) then [] else map (pair airport) hubs)
           airports.

(** The flight joins [a] and [b], in one direction or the other. *)
Definition connects (f : Flight) (a b : string) : Prop :=
  (origin f = a ∧ destination f = b) ∨ (origin f = b ∧ destination f = a).

(** [connects], as a test. *)
Definition joins (a b : string) (f : Flight) : bool :=
  bool_decide (origin f = a) && bool_decide (destination f = b)
  || bool_decide (origin f = b) && bool_decide (destination f = a).

(** The flight goes from [a] to [b]. *)
Definition goes (f : Flight) (a b : string) : Prop :=
  origin f = a ∧ destination f = b.

(** No hub other than the origin and the destination has two legs that are
    both resolved and non-zero. *)
Definition no_qualifying_hub (get_distance : string -> string -> option float)
    (origin destination : string) (hubs : list string) : Prop :=
  ∀ hub, hub ∈ hubs → hub ≠ origin → hub ≠ destination →
    ¬ (truthy (get_distance origin hub) = true
       ∧ truthy (get_distance hub destination) = true).

(** The hub is neither the origin nor the destination, the two legs through
    it are resolved and non-zero, and their sum is [total]. *)
Definition hub_route (get_distance : string -> string -> option float)
    (origin destination hub : string) (total : float) : Prop :=
  hub ≠ origin ∧ hub ≠ destination
  ∧ ∃ dist1 dist2,
      get_distance origin hub = Some dist1
      ∧ get_distance hub destination = Some dist2
      ∧ truth dist1 = true ∧ truth dist2 = true
      ∧ total = add dist1 dist2.

(** The distance function that answers [None] wherever [get_distance]
    answers a zero ([0.0] or [-0.0]). *)
Definition zero_as_missing (get_distance : string -> string -> option float)
    (a b : string) : option float :=
  match get_distance a b with
  | Some x => if eqb x zero then None else Some x
  | None => None
  end.

(** A turn of each of the three loops of the generator, on a pair. *)
Definition hub_pair (get_distance : string -> string -> option float)
    (st : state) (p : string * string) : state :=
  hub_pair_step get_distance p.1 st p.2.

Definition spoke_pair (get_distance : string -> string -> option float)
    (st : state) (p : string * string) : state :=
  spoke_step get_distance p.1 st p.2.

Definition direct_pair (get_distance : string -> string -> option float)
    (hubs : list string) (st : state) (p : string * string) : state :=
  direct_pair_step get_distance hubs p.1 st p.2.

(** The state after a flight from [a] to [b] is appended and the pair is
    marked in both orders. *)
Definition add_one_way (a b : string) (d : float) (st : state) : state :=
  mark b a (mark a b (append (direct_flight a b d) st)).

(** The state after the flights from [a] to [b] and back are appended and
    the pair is marked in both orders. *)
Definition add_both_ways (a b : string) (d : float) (st : state) : state :=
  mark b a (mark a b
    (append (direct_flight b a d) (append (direct_flight a b d) st))).

(** A flight between two hubs goes from the earlier hub of the list to the
    later one. *)
Definition hub_order (hubs : list string) (f : Flight) : Prop :=
  (origin f, destination f) ∈ ordered_pairs hubs
  ∨ origin f ∉ hubs ∨ destination f ∉ hubs.

(** A pair is marked exactly when a flight joins its two airports. *)
Definition marked_iff_joined (st : state) : Prop :=
  ∀ a b, (a, b) ∈ processed_pairs st ↔ ∃ f, f ∈ flights st ∧ connects f a b.

Definition not_nan (o : RouteOption) : Prop := is_nan (opt_distance o) = false.

(** A turn of one of the three loops of the generator, with the pair of
    codes it is about. *)
Inductive turn :=
  | HubTurn (hub1 hub2 : string)
  | SpokeTurn (airport hub : string)
  | DirectTurn (origin destination : string).

(** The turns of a generation, in order. *)
Definition turns (hubs airports : list string) : list turn :=
  map (fun p => HubTurn p.1 p.2) (ordered_pairs hubs)
  ++ map (fun p => SpokeTurn p.1 p.2) (spoke_pairs hubs airports)
  ++ map (fun p => DirectTurn p.1 p.2) (ordered_pairs airports).

Definition run_turn (get_distance : string -> string -> option float)
    (hubs : list string) (st : state) (t : turn) : state :=
  match t with
  | HubTurn hub1 hub2 => hub_pair_step get_distance hub1 st hub2
  | SpokeTurn airport hub => spoke_step get_distance airport st hub
  | DirectTurn origin destination =>
      direct_pair_step get_distance hubs origin st destination
  end.

(** The pair of a turn, in both orders. *)
Definition both_orders (t : turn) : list (string * string) :=
  match t with
  | HubTurn a b | SpokeTurn a b | DirectTurn a b => [ (a, b); (b, a) ]
  end.

(** The pairs that a turn can mark: none for a turn of the third loop on a
    hub, which is skipped. *)
Definition turn_pairs (hubs : list string) (t : turn) : list (string * string) :=
  match t with
  | DirectTurn a b =>
      if bool_decide (a ∈ hubs) || bool_decide (b ∈ hubs) then []
      else both_orders t
  | _ => both_orders t
  end.

(** The distance of the pair is resolved, non-zero and at least 150 miles. *)
Definition accepted (get_distance : string -> string -> option float)
    (a b : string) (x : float) : Prop :=
  get_distance a b = Some x ∧ truth x = true ∧ geb x f150 = true.

(** The conditions under which a turn appends flights of distance [x]. *)
Definition fires (get_distance : string -> string -> option float)
    (hubs : list string) (t : turn) (x : float) : Prop :=
  match t with
  | HubTurn a b | SpokeTurn a b => accepted get_distance a b x
  | DirectTurn origin destination =>
      (origin ∉ hubs) ∧ (destination ∉ hubs)
      ∧ accepted get_distance origin destination x
      ∧ should_create_direct_flight get_distance origin destination x hubs = true
  end.

(** The flights that a turn appends when it fires. *)
Definition turn_flights (t : turn) (x : float) : list Flight :=
  match t with
  | HubTurn a b => [ direct_flight a b x ]
  | SpokeTurn a b | DirectTurn a b => [ direct_flight a b x; direct_flight b a x ]
  end.

(** The distance of the flights of a turn, computed without the set of
    processed pairs: [None] when the tests of the loop body other than
    [in processed_pairs] skip the pair. *)
Definition turn_distance (get_distance : string -> string -> option float)
    (hubs : list string) (t : turn) : option float :=
  match t with
  | HubTurn a b | SpokeTurn a b =>
      match get_distance a b with
      | Some x => if truth x && geb x f150 then Some x else None
      | None => None
      end
  | DirectTurn a b =>
      if bool_decide (a ∈ hubs) || bool_decide (b ∈ hubs) then None
      else
        match get_distance a b with
        | Some x =>
            if truth x && geb x f150
               && should_create_direct_flight get_distance a b x hubs
            then Some x else None
        | None => None
        end
  end.

Definition turn_output (get_distance : string -> string -> option float)
    (hubs : list string) (t : turn) : list Flight :=
  match turn_distance get_distance hubs t with
  | Some x => turn_flights t x
  | None => []
  end.

(** The flight is appended by a turn of the generation that fires. *)
Definition produced (get_distance : string -> string -> option float)
    (hubs airports : list string) (f : Flight) : Prop :=
  ∃ t x, t ∈ turns hubs airports ∧ fires get_distance hubs t x
         ∧ f ∈ turn_flights t x.

(** The origin and the destination of a flight. *)
Definition endpoints (f : Flight) : string * string := (origin f, destination f).

(** The flight in the other direction. *)
Definition reverse_flight (f : Flight) : Flight :=
  mkFlight (destination f) (origin f) (distance f) (is_direct f) (via_hub f).

(** Two distance functions give the same answers on the codes of a list. *)
Definition agree_on (codes : list string)
    (gd1 gd2 : string -> string -> option float) : Prop :=
  ∀ a b, a ∈ codes → b ∈ codes → gd1 a b = gd2 a b.

(** No flight has a negative or NaN distance; a flight edge has a positive
    one. *)
Definition nonnegative_distances (flights : list Flight) : Prop :=
  Forall (fun f => leb zero (distance f) = true) flights.

(** [x['distance'] <= y['distance']] *)
Definition le_key (x y : RouteOption) : Prop :=
  leb (opt_distance x) (opt_distance y) = true.

(** Route options in ascending order of distance. *)
Definition ascending (options : list RouteOption) : Prop :=
  Sorted (fun x y => leb (opt_distance x) (opt_distance y) = true) options.

(** There is a direct flight from [origin] to [destination]. *)
Definition has_direct (origin destination : string) (flights : list Flight) : Prop :=
  ∃ f, f ∈ flights ∧ goes f origin destination ∧ is_direct f = true.

(** There is a connection through one of the hubs, which is neither the
    origin nor the destination. *)
Definition has_hub_connection (hubs : list string) (origin destination : string)
    (flights : list Flight) : Prop :=
  ∃ hub leg1 leg2, hub ∈ hubs ∧ hub ≠ origin ∧ hub ≠ destination
    ∧ leg1 ∈ flights ∧ goes leg1 origin hub
    ∧ leg2 ∈ flights ∧ goes leg2 hub destination.

(** The option for a direct flight, and the option for a connection made of
    two flights, the second out of the hub where the first ends. *)
Definition direct_route (f : Flight) : RouteOption :=
  mkRouteOption "direct" [origin f; destination f] (distance f) 0 None.

Definition hub_connection (leg1 leg2 : Flight) : RouteOption :=
  mkRouteOption "hub_connection" [origin leg1; origin leg2; destination leg2]
    (add (distance leg1) (distance leg2)) 1 (Some (origin leg2)).

(** The option is that of a direct flight of the list from [origin] to
    [destination], or that of a connection of two flights of the list through
    one of the hubs, which is neither [origin] nor [destination]. *)
Definition backed_by (hubs : list string) (flights : list Flight)
    (origin destination : string) (opt : RouteOption) : Prop :=
  (∃ f, f ∈ flights ∧ goes f origin destination ∧ is_direct f = true
        ∧ opt = direct_route f)
  ∨ (∃ leg1 leg2 hub, hub ∈ hubs ∧ hub ≠ origin ∧ hub ≠ destination
        ∧ leg1 ∈ flights ∧ goes leg1 origin hub
        ∧ leg2 ∈ flights ∧ goes leg2 hub destination
        ∧ opt = hub_connection leg1 leg2).

End Props.

(** ** Sample data *)

Module Samples.

Import FlightNetwork.

Definition f11 : float := Eval vm_compute in lit 11.
Definition f600 : float := Eval vm_compute in lit 600.
Definition f1200 : float := Eval vm_compute in lit 1200.
Definition f4500 : float := Eval vm_compute in lit 4500.

(** The three New York airports lie within a few miles of each other. *)
Definition near_pairs : list (string * string) :=
  [ ("JFK", "LGA"); ("JFK", "EWR"); ("EWR", "LGA") ].

(** A distance table over the thirty airports of the network: 11 miles
    between the New York airports, 600 miles between an airport and a hub,
    1200 miles between two other airports; any other code is unknown. *)
Definition sample_distance (a b : string) : option float :=
  if bool_decide (a ∈ US_AIRPORTS ∧ b ∈ US_AIRPORTS) then
    if bool_decide (a = b) then Some zero
    else if bool_decide ((a, b) ∈ near_pairs ∨ (b, a) ∈ near_pairs) then Some f11
    else if bool_decide (a ∈ MAJOR_HUBS ∨ b ∈ MAJOR_HUBS) then Some f600
    else Some f1200
  else None.

(** The same table, for a catalog that also knows Paris. *)
Definition sample_distance_cdg (a b : string) : option float :=
  if bool_decide (a = "CDG" ∨ b = "CDG") then
    if bool_decide (a = b) then Some zero else Some f4500
  else sample_distance a b.

(** A table that puts any two different airports 600 miles apart. *)
Definition uniform_distance (a b : string) : option float :=
  if bool_decide (a = b) then Some zero else Some f600.

(** A catalog in which two pairs of airports share their coordinates: the
    distance between them is [0.0]. *)
Definition colocated_pairs : list (string * string) :=
  [ ("JFK", "LGA"); ("DFW", "AUS") ].

Definition colocated_distance (a b : string) : option float :=
  if bool_decide ((a, b) ∈ colocated_pairs ∨ (b, a) ∈ colocated_pairs)
  then Some zero
  else sample_distance a b.

(** A math module for running [get_distance].  [radians] is the one of
    CPython, a multiplication by pi / 180.  At NaN, at the infinities and
    outside their domains the other functions return or raise as the
    library does; elsewhere [sqrt] and the square are the binary64 ones and
    [sin], [cos] and [asin] are replaced by their small-angle values [x],
    [1] and [x]. *)
Definition deg_to_rad : float := Eval vm_compute in lit 0.017453292519943295.
Definition sample_radians (x : float) : float := mul x deg_to_rad.
Definition sample_sqrt (x : float) : option float :=
  if ltb x zero then None else Some (SFsqrt prec emax x).
Definition sample_square (x : float) : option float :=
  if is_finite x && is_infinity (mul x x) then None else Some (mul x x).
Definition small_sin (x : float) : option float :=
  if is_infinity x then None else Some x.
Definition small_cos (x : float) : option float :=
  if is_infinity x then None else if is_nan x then Some x else Some f1.
Definition small_asin (x : float) : option float :=
  if is_nan x then Some x
  else if leb (SFopp f1) x && leb x f1 then Some x else None.

Definition sample_math : AirportReference.MathModule :=
  AirportReference.mkMath
    sample_radians small_sin small_cos small_asin sample_sqrt sample_square.

(** The string methods on ASCII text: the ASCII case maps. *)
Definition ascii_str : PyStr.StrModule.
Proof.
  refine (PyStr.mkStr PyStr.ascii_upper PyStr.ascii_lower
            (fun _ _ => eq_refl) (fun _ _ => eq_refl) _).
  assert (U : ∀ c, PyStr.upper_char (PyStr.lower_char c) = PyStr.upper_char c)
    by (intros [[] [] [] [] [] [] [] []]; vm_compute; reflexivity).
  unfold PyStr.same_letters, PyStr.ascii_upper, PyStr.ascii_lower.
  intros s. induction s as [|c s IH]; intros [|d t]; simpl;
    try discriminate; [reflexivity|].
  intros [= Hc Hs]. rewrite (IH t Hs), <- (U c), <- (U d), Hc. reflexivity.
Defined.

Definition sample_get_distance
    : string -> string -> string -> PyExc.outcome (option float) :=
  AirportReference.get_distance ascii_str sample_math.

(** The coordinates of Atlanta in the catalog. *)
Definition atl_latitude : float := Eval vm_compute in lit 33.6407.
Definition atl_longitude : float := Eval vm_compute in lit (-84.4277).

(** Three flights from Los Angeles to New York, direct and through Denver. *)
Definition sample_flights : list Flight :=
  [ direct_flight "LAX" "JFK" f4500;
    direct_flight "LAX" "DEN" f600;
    direct_flight "DEN" "JFK" f1200 ].

(** Five flights out of Los Angeles and into New York, one of them with a
    NaN distance. *)
Definition f0_5 : float := Eval vm_compute in lit 0.5.

Definition nan_flights : list Flight :=
  [ direct_flight "LAX" "JFK" f2;
    direct_flight "LAX" "ATL" nan;
    direct_flight "ATL" "JFK" f1;
    direct_flight "LAX" "DFW" f0_5;
    direct_flight "DFW" "JFK" f0_5 ].

End Samples.

(** * Properties *)

(** ** Facts about binary64 comparison and addition *)

Module PyFloatFacts.

Section Order.

Implicit Types x y z : float.

Lemma compare_cont_antisym (p q : positive) :
  Pos.compare_cont Eq q p = CompOpp (Pos.compare_cont Eq p q).
Proof. now rewrite (Pos.compare_cont_antisym p q Eq). Qed.

Lemma compare_antisym x y :
  SFcompare y x = option_map CompOpp (SFcompare x y).
Proof.
  destruct x as [sx|sx| |sx mx ex], y as [sy|sy| |sy my ey]; simpl;
    try destruct sx; try destruct sy; try reflexivity;
    rewrite (Z.compare_antisym ex ey), (compare_cont_antisym mx my);
    destruct (ex ?= ey)%Z; simpl; try reflexivity;
    now rewrite CompOpp_involutive.
Qed.

Lemma compare_not_nan x y :
  is_nan x = false -> is_nan y = false -> exists c, SFcompare x y = Some c.
Proof.
  destruct x as [sx|sx| |sx mx ex], y as [sy|sy| |sy my ey]; simpl;
    intros; try discriminate; eauto.
Qed.

(** [x <= y] excludes [y < x]. *)
Lemma leb_not_ltb x y : leb x y = true -> ltb y x = false.
Proof.
  unfold leb, ltb, SFleb, SFltb. rewrite (compare_antisym x y).
  destruct (SFcompare x y) as [[]|]; simpl; congruence.
Qed.

Lemma ltb_leb x y : ltb x y = true -> leb x y = true.
Proof.
  unfold leb, ltb, SFleb, SFltb.
  destruct (SFcompare x y) as [[]|]; simpl; congruence.
Qed.

(** Away from NaN the order is total. *)
Lemma not_ltb_leb x y :
  is_nan x = false -> is_nan y = false -> ltb x y = false -> leb y x = true.
Proof.
  intros Hx Hy. destruct (compare_not_nan x y Hx Hy) as [c Hc].
  unfold leb, ltb, SFleb, SFltb. rewrite (compare_antisym x y), Hc.
  destruct c; simpl; congruence.
Qed.

Lemma leb_trans x y z : leb x y = true -> leb y z = true -> leb x z = true.
Proof.
  unfold leb, SFleb.
  destruct x as [sx|sx| |sx mx ex], y as [sy|sy| |sy my ey],
           z as [sz|sz| |sz mz ez]; simpl;
    try destruct sx; try destruct sy; try destruct sz; simpl;
    try congruence;
    rewrite ?Pos.compare_cont_spec; simpl;
    destruct (Z.compare_spec ex ey), (Z.compare_spec ey ez),
             (Z.compare_spec ex ez); simpl; try congruence; try lia;
    try (destruct (Pos.compare_spec mx my), (Pos.compare_spec my mz),
             (Pos.compare_spec mx mz); simpl; try congruence; lia).
Qed.

Lemma leb_zero_not_nan x : leb zero x = true -> is_nan x = false.
Proof. now destruct x. Qed.

End Order.

Section Rounding.

Lemma shr_1_nonneg mrs : (0 <= shr_m mrs)%Z -> (0 <= shr_m (shr_1 mrs))%Z.
Proof. destruct mrs as [[|[p|p|]|[p|p|]] r s]; simpl; lia. Qed.

Lemma iter_shr_1_nonneg p : forall mrs,
  (0 <= shr_m mrs)%Z -> (0 <= shr_m (SpecFloat.iter_pos shr_1 p mrs))%Z.
Proof.
  induction p as [p IH|p IH|]; simpl; intros mrs H.
  - apply IH, IH, shr_1_nonneg, H.
  - apply IH, IH, H.
  - apply shr_1_nonneg, H.
Qed.

Lemma shr_fexp_nonneg m e l :
  (0 <= m)%Z -> (0 <= shr_m (fst (shr_fexp prec emax m e l)))%Z.
Proof.
  intros H. unfold shr_fexp, shr.
  assert (H0 : (0 <= shr_m (shr_record_of_loc m l))%Z)
    by (destruct l as [|[]]; exact H).
  destruct (fexp prec emax (Zdigits2 m + e) - e)%Z; simpl; trivial.
  now apply iter_shr_1_nonneg.
Qed.

Lemma round_nearest_even_nonneg m l :
  (0 <= m)%Z -> (0 <= round_nearest_even m l)%Z.
Proof.
  intros H. destruct l as [|[]]; simpl; try lia.
  destruct (Z.even m); lia.
Qed.

(** Rounding a non-negative mantissa never gives NaN. *)
Lemma binary_round_aux_not_nan sx mx ex lx :
  (0 <= mx)%Z -> is_nan (binary_round_aux prec emax sx mx ex lx) = false.
Proof.
  intros H. unfold binary_round_aux.
  pose proof (shr_fexp_nonneg mx ex lx H) as H1.
  destruct (shr_fexp prec emax mx ex lx) as [mrs1 e1]; simpl in H1.
  pose proof (shr_fexp_nonneg _ e1 loc_Exact
                (round_nearest_even_nonneg _ (loc_of_shr_record mrs1) H1)) as H2.
  destruct (shr_fexp prec emax _ e1 loc_Exact) as [mrs2 e2]; simpl in H2.
  destruct (shr_m mrs2); try lia; trivial.
  now destruct (e2 <=? emax - prec)%Z.
Qed.

(** The sum of two floats that are not negative is not NaN. *)
Lemma add_nonneg_not_nan x y :
  leb zero x = true -> leb zero y = true -> is_nan (add x y) = false.
Proof.
  destruct x as [sx|[]| |[] mx ex], y as [sy|[]| |[] my ey];
    simpl; try discriminate; trivial; intros _ _.
  - now destruct sx, sy.
  - unfold add, SFadd, binary_normalize, binary_round; simpl.
    destruct (shl_align _ _ _) as [mz ez] eqn:E.
    apply binary_round_aux_not_nan. lia.
Qed.



End Rounding.

Section NotANumber.







End NotANumber.

(** The sign of the operands passes through rounding. *)

Section Sign.

Implicit Types x y : float.

Lemma binary_round_aux_opp s m e l :
  binary_round_aux prec emax (negb s) m e l
  = SFopp (binary_round_aux prec emax s m e l).
Proof.
  unfold binary_round_aux.
  destruct (shr_fexp prec emax m e l) as [mrs1 e1].
  destruct (shr_fexp prec emax _ e1 loc_Exact) as [mrs2 e2].
  destruct (shr_m mrs2); try reflexivity.
  now destruct (e2 <=? emax - prec)%Z.
Qed.

Lemma binary_round_opp s m e :
  binary_round prec emax (negb s) m e = SFopp (binary_round prec emax s m e).
Proof.
  unfold binary_round. destruct (shl_align _ _ _) as [mz ez].
  apply binary_round_aux_opp.
Qed.

Lemma opp_involutive x : SFopp (SFopp x) = x.
Proof. destruct x; simpl; now rewrite ?negb_involutive. Qed.

Lemma binary_normalize_opp m e :
  m ≠ 0%Z ->
  binary_normalize prec emax (- m) e false
  = SFopp (binary_normalize prec emax m e false).
Proof.
  destruct m as [|p|p]; simpl; intros H; [done| |].
  - apply (binary_round_opp false).
  - change true with (negb false).
    now rewrite (binary_round_opp false), opp_involutive.
Qed.

(** [y - x] is the opposite of [x - y], unless both are [+0]. *)
Lemma sub_swap x y :
  sub y x = SFopp (sub x y) ∨ (sub y x = zero ∧ sub x y = zero).
Proof.
  unfold sub, zero.
  destruct x as [sx|sx| |sx mx ex], y as [sy|sy| |sy my ey]; simpl;
    try (destruct sx, sy; simpl; tauto); try tauto.
  all: try (destruct sx; simpl; rewrite ?negb_involutive; tauto).
  all: try (destruct sy; simpl; rewrite ?negb_involutive; tauto).
  rewrite (Z.min_comm ey ex).
  set (a := cond_Zopp sx _). set (b := cond_Zopp sy _).
  destruct (Z.eq_dec (a - b)%Z 0%Z) as [E|E].
  - right. replace (b - a)%Z with 0%Z by lia. rewrite E. simpl. tauto.
  - left. replace (b - a)%Z with (- (a - b))%Z by lia.
    now apply binary_normalize_opp.
Qed.

Lemma div_opp x y : div (SFopp x) y = SFopp (div x y).
Proof.
  unfold div.
  destruct x as [sx|sx| |sx mx ex], y as [sy|sy| |sy my ey]; simpl;
    try reflexivity; try (now destruct sx, sy).
  destruct (SFdiv_core_binary _ _ _ _ _ _) as [[mz ez] lz].
  rewrite <- binary_round_aux_opp. now destruct sx, sy.
Qed.

Lemma mul_comm x y : mul x y = mul y x.
Proof.
  unfold mul.
  destruct x as [sx|sx| |sx mx ex], y as [sy|sy| |sy my ey]; simpl;
    try reflexivity; try (now destruct sx, sy).
  now rewrite (Pos.mul_comm mx my), (Z.add_comm ex ey), (xorb_comm sx sy).
Qed.

Lemma mul_opp_opp x : mul (SFopp x) (SFopp x) = mul x x.
Proof.
  unfold mul. destruct x as [sx|sx| |sx mx ex]; simpl; try reflexivity;
    now destruct sx.
Qed.
End Sign.

End PyFloatFacts.

(** ** Facts about the generator, the route planner and the auditor *)

Module FlightNetworkFacts.

Import FlightNetwork Props PyFloatFacts.

(** *** Loops as folds *)

Section Loops.

Context {S A : Type}.

Lemma fold_left_invariant (P : S -> Prop) (f : S -> A -> S) (l : list A) :
  (∀ s a, a ∈ l -> P s -> P (f s a)) -> ∀ s, P s -> P (fold_left f l s).
Proof.
  induction l as [|x l IH]; simpl; intros Hf s Hs; [exact Hs|].
  apply IH.
  - intros s' a Ha. apply Hf. now right.
  - apply Hf; [left|exact Hs].
Qed.

Lemma fold_left_ext_in (f g : S -> A -> S) (l : list A) :
  (∀ s a, a ∈ l -> f s a = g s a) -> ∀ s, fold_left f l s = fold_left g l s.
Proof.
  induction l as [|x l IH]; simpl; intros Hfg s; [reflexivity|].
  rewrite (Hfg s x) by left. apply IH. intros s' a Ha. apply Hfg. now right.
Qed.

Lemma fold_left_map_pair {B : Type} (f : S -> B -> S) (g : A -> B) (l : list A) :
  ∀ s, fold_left f (map g l) s = fold_left (fun s a => f s (g a)) l s.
Proof. induction l as [|x l IH]; simpl; intros s; [reflexivity|apply IH]. Qed.

End Loops.

Lemma elem_of_ordered_pairs_r {A : Type} (l : list A) (x y : A) :
  (x, y) ∈ ordered_pairs l -> x ∈ l ∧ y ∈ l.
Proof.
  rewrite !list_elem_of_In.
  induction l as [|z l IH]; simpl; [tauto|].
  rewrite in_app_iff, in_map_iff.
  intros [(y' & [= -> ->] & Hy)|H]; [tauto|].
  destruct (IH H). tauto.
Qed.

Lemma elem_of_spoke_pairs (hubs airports : list string) (a h : string) :
  (a, h) ∈ spoke_pairs hubs airports ↔ a ∈ airports ∧ (a ∉ hubs) ∧ h ∈ hubs.
Proof.
  unfold spoke_pairs. rewrite !list_elem_of_In, in_flat_map. split.
  - intros (x & Hx & H). case_bool_decide as Hh; [destruct H|].
    apply in_map_iff in H as (h' & [= -> ->] & H).
    rewrite list_elem_of_In in Hh. tauto.
  - intros (Ha & Hn & Hh). exists a. split; [exact Ha|].
    rewrite bool_decide_eq_false_2 by (rewrite list_elem_of_In; exact Hn).
    apply in_map_iff. eauto.
Qed.

Section Passes.

Variable get_distance : string -> string -> option float.

Lemma hub_to_hub_fold hubs : ∀ st,
  hub_to_hub get_distance hubs st = fold_left (hub_pair get_distance) (ordered_pairs hubs) st.
Proof.
  induction hubs as [|hub1 rest IH]; simpl; intros st; [reflexivity|].
  now rewrite fold_left_app, fold_left_map_pair, IH.
Qed.

Lemma airport_to_hub_fold hubs airports : ∀ st,
  airport_to_hub get_distance hubs airports st
  = fold_left (spoke_pair get_distance) (spoke_pairs hubs airports) st.
Proof.
  unfold airport_to_hub, spoke_pairs.
  induction airports as [|a rest IH]; simpl; intros st; [reflexivity|].
  rewrite fold_left_app, IH. f_equal. unfold airport_step.
  case_bool_decide; [reflexivity|]. now rewrite fold_left_map_pair.
Qed.

Lemma direct_pairs_fold hubs airports : ∀ st,
  direct_pairs get_distance hubs airports st
  = fold_left (direct_pair get_distance hubs) (ordered_pairs airports) st.
Proof.
  induction airports as [|o rest IH]; simpl; intros st; [reflexivity|].
  now rewrite fold_left_app, fold_left_map_pair, IH.
Qed.

Lemma generate_fold hubs airports :
  generate get_distance hubs airports
  = fold_left (direct_pair get_distance hubs) (ordered_pairs airports)
      (fold_left (spoke_pair get_distance) (spoke_pairs hubs airports)
         (fold_left (hub_pair get_distance) (ordered_pairs hubs) (mkState [] ∅))).
Proof.
  unfold generate.
  now rewrite direct_pairs_fold, airport_to_hub_fold, hub_to_hub_fold.
Qed.

(** What a turn of each loop does to the state. *)

Lemma hub_pair_step_cases hub1 st hub2 :
  hub_pair_step get_distance hub1 st hub2 = st
  ∨ ∃ d, get_distance hub1 hub2 = Some d ∧ truth d = true ∧ leb f150 d = true
       ∧ hub_pair_step get_distance hub1 st hub2 = add_one_way hub1 hub2 d st.
Proof.
  unfold hub_pair_step.
  destruct (get_distance hub1 hub2) as [d|]; [|now left].
  destruct (truth d) eqn:Ht, (geb d f150) eqn:Hd; simpl; try now left.
  right. exists d. done.
Qed.

Lemma spoke_step_cases airport st hub :
  spoke_step get_distance airport st hub = st
  ∨ ∃ d, get_distance airport hub = Some d ∧ truth d = true ∧ leb f150 d = true
       ∧ spoke_step get_distance airport st hub = add_both_ways airport hub d st.
Proof.
  unfold spoke_step.
  destruct (get_distance airport hub) as [d|]; [|now left].
  destruct (truth d) eqn:Ht, (geb d f150) eqn:Hd; simpl; try now left.
  right. exists d. done.
Qed.

Lemma direct_pair_step_cases hubs o st d :
  direct_pair_step get_distance hubs o st d = st
  ∨ ∃ x, ((o, d) ∉ processed_pairs st) ∧ (o ∉ hubs) ∧ (d ∉ hubs)
       ∧ get_distance o d = Some x ∧ truth x = true ∧ leb f150 x = true
       ∧ should_create_direct_flight get_distance o d x hubs = true
       ∧ direct_pair_step get_distance hubs o st d = add_both_ways o d x st.
Proof.
  unfold direct_pair_step.
  case_bool_decide as Hp; [now left|].
  case_bool_decide as Ho; simpl.
  { case_bool_decide; now left. }
  case_bool_decide as Hd; simpl; [now left|].
  destruct (get_distance o d) as [x|]; [|now left].
  destruct (truth x) eqn:Ht, (geb x f150) eqn:Hx; simpl; try now left.
  destruct (should_create_direct_flight _ _ _ _ _) eqn:Hs; [|now left].
  right. exists x. done.
Qed.

(** A property of the state that every turn of the three loops keeps holds
    at the end of the generation. *)
Lemma generate_invariant (P : state -> Prop) hubs airports :
  P (mkState [] ∅) ->
  (∀ st h1 h2 d, (h1, h2) ∈ ordered_pairs hubs -> leb f150 d = true ->
     P st -> P (add_one_way h1 h2 d st)) ->
  (∀ st a b d, a ∉ hubs -> leb f150 d = true ->
     P st -> P (add_both_ways a b d st)) ->
  P (generate get_distance hubs airports).
Proof.
  intros H0 H1 H2. rewrite generate_fold.
  apply fold_left_invariant.
  { intros st [o d] _ Hst. unfold direct_pair; simpl.
    destruct (direct_pair_step_cases hubs o st d) as [->|(x & ? & ? & ? & ? & ? & ? & ? & ->)];
      [exact Hst|]. now apply H2. }
  apply fold_left_invariant.
  { intros st [a h] Hin%elem_of_spoke_pairs Hst. unfold spoke_pair; simpl.
    destruct (spoke_step_cases a st h) as [->|(x & ? & ? & ? & ->)];
      [exact Hst|]. apply H2; tauto. }
  apply fold_left_invariant; [|exact H0].
  intros st [h1 h2] Hin Hst. unfold hub_pair; simpl.
  destruct (hub_pair_step_cases h1 st h2) as [->|(x & ? & ? & ? & ->)];
    [exact Hst|]. now apply H1.
Qed.

(** The flights and pairs that a turn adds. *)

Lemma flights_add_one_way a b d st :
  flights (add_one_way a b d st) = flights st ++ [direct_flight a b d].
Proof. reflexivity. Qed.

Lemma flights_add_both_ways a b d st :
  flights (add_both_ways a b d st)
  = flights st ++ [direct_flight a b d; direct_flight b a d].
Proof. unfold add_both_ways, mark, append; simpl. now rewrite <- app_assoc. Qed.

Lemma processed_add_one_way a b d st :
  processed_pairs (add_one_way a b d st)
  = {[ (b, a) ]} ∪ ({[ (a, b) ]} ∪ processed_pairs st).
Proof. reflexivity. Qed.

Lemma processed_add_both_ways a b d st :
  processed_pairs (add_both_ways a b d st)
  = {[ (b, a) ]} ∪ ({[ (a, b) ]} ∪ processed_pairs st).
Proof. reflexivity. Qed.

(** Every generated flight is at least 150 miles long. *)
Lemma generate_min_distance hubs airports :
  Forall (fun f => geb (distance f) f150 = true)
         (flights (generate get_distance hubs airports)).
Proof.
  apply (generate_invariant
           (fun st => Forall (fun f => geb (distance f) f150 = true) (flights st))).
  - constructor.
  - intros st h1 h2 d _ Hd Hst. rewrite flights_add_one_way.
    apply Forall_app. split; [exact Hst|]. repeat constructor; exact Hd.
  - intros st a b d _ Hd Hst. rewrite flights_add_both_ways.
    apply Forall_app. split; [exact Hst|]. repeat constructor; exact Hd.
Qed.

Lemma generate_hub_order hubs airports :
  Forall (hub_order hubs) (flights (generate get_distance hubs airports)).
Proof.
  apply (generate_invariant (fun st => Forall (hub_order hubs) (flights st))).
  - constructor.
  - intros st h1 h2 d Hin _ Hst. rewrite flights_add_one_way.
    apply Forall_app. split; [exact Hst|]. constructor; [|constructor]. now left.
  - intros st a b d Ha _ Hst. rewrite flights_add_both_ways.
    apply Forall_app. split; [exact Hst|].
    constructor; [|constructor; [|constructor]]; unfold hub_order; simpl; tauto.
Qed.

Lemma connects_direct_flight a b d x y :
  connects (direct_flight a b d) x y ↔ (a = x ∧ b = y) ∨ (a = y ∧ b = x).
Proof. reflexivity. Qed.

Lemma generate_marked_iff_joined hubs airports :
  marked_iff_joined (generate get_distance hubs airports).
Proof.
  apply (generate_invariant marked_iff_joined).
  - intros a b. split; [set_solver|]. intros (f & Hf & _). set_solver.
  - intros st h1 h2 d _ _ Hst a b.
    rewrite processed_add_one_way, flights_add_one_way, !elem_of_union,
      !elem_of_singleton, (Hst a b).
    split.
    + intros [[= -> ->]|[[= -> ->]|(f & Hf & Hc)]].
      * eexists. split; [apply elem_of_app; right; left|]. right. done.
      * eexists. split; [apply elem_of_app; right; left|]. left. done.
      * exists f. split; [apply elem_of_app; now left|exact Hc].
    + intros (f & [Hf|Hf%list_elem_of_singleton]%elem_of_app & Hc).
      * right. right. eauto.
      * subst f. apply connects_direct_flight in Hc as [[-> ->]|[-> ->]]; tauto.
  - intros st x y d _ _ Hst a b.
    rewrite processed_add_both_ways, flights_add_both_ways, !elem_of_union,
      !elem_of_singleton, (Hst a b).
    split.
    + intros [[= -> ->]|[[= -> ->]|(f & Hf & Hc)]].
      * eexists. split; [apply elem_of_app; right; left|]. right. done.
      * eexists. split; [apply elem_of_app; right; left|]. left. done.
      * exists f. split; [apply elem_of_app; now left|exact Hc].
    + intros (f & [Hf|Hf]%elem_of_app & Hc).
      * right. right. eauto.
      * apply elem_of_cons in Hf as [->|Hf];
          [|apply list_elem_of_singleton in Hf as ->];
          apply connects_direct_flight in Hc as [[-> ->]|[-> ->]]; tauto.
Qed.

Lemma joins_connects a b f : joins a b f = true ↔ connects f a b.
Proof.
  unfold joins, connects.
  rewrite orb_true_iff, !andb_true_iff, !bool_decide_eq_true. tauto.
Qed.

(** A pair that no generated flight joins is not marked, in either order. *)
Lemma not_processed_of_no_flight a b :
  existsb (joins a b) (generate_flight_network get_distance) = false ->
  ((a, b) ∉ processed_pairs (generate_flight_network_state get_distance))
  ∧ ((b, a) ∉ processed_pairs (generate_flight_network_state get_distance)).
Proof.
  intros H.
  assert (M : marked_iff_joined (generate_flight_network_state get_distance))
    by exact (generate_marked_iff_joined MAJOR_HUBS US_AIRPORTS).
  assert (N : ∀ f, f ∈ generate_flight_network get_distance -> ¬ connects f a b).
  { intros f Hf Hc%joins_connects.
    assert (E : existsb (joins a b) (generate_flight_network get_distance) = true).
    { apply existsb_exists. exists f. split; [|exact Hc].
      apply list_elem_of_In. exact Hf. }
    congruence. }
  split; intros Hin; destruct (proj1 (M _ _) Hin) as (f & Hf & Hc);
    apply (N f Hf); unfold connects in *; tauto.
Qed.

End Passes.
(** *** The list of flights only grows *)

Section Growth.

Variable get_distance : string -> string -> option float.

Lemma hub_pair_step_grows h1 st h2 :
  flights st `prefix_of` flights (hub_pair_step get_distance h1 st h2).
Proof.
  destruct (hub_pair_step_cases get_distance h1 st h2)
    as [->|(x & _ & _ & _ & ->)]; [reflexivity|].
  rewrite flights_add_one_way. now apply prefix_app_r.
Qed.

Lemma spoke_step_grows a st h :
  flights st `prefix_of` flights (spoke_step get_distance a st h).
Proof.
  destruct (spoke_step_cases get_distance a st h)
    as [->|(x & _ & _ & _ & ->)]; [reflexivity|].
  rewrite flights_add_both_ways. now apply prefix_app_r.
Qed.

Lemma direct_pair_step_grows hubs o st d :
  flights st `prefix_of` flights (direct_pair_step get_distance hubs o st d).
Proof.
  destruct (direct_pair_step_cases get_distance hubs o st d)
    as [->|(x & _ & _ & _ & _ & _ & _ & _ & ->)]; [reflexivity|].
  rewrite flights_add_both_ways. now apply prefix_app_r.
Qed.

Lemma fold_left_grows {A : Type} (step : state -> A -> state) (l : list A) :
  (∀ st a, flights st `prefix_of` flights (step st a)) ->
  ∀ st, flights st `prefix_of` flights (fold_left step l st).
Proof.
  intros H st.
  apply (fold_left_invariant (fun s => flights st `prefix_of` flights s));
    [|reflexivity].
  intros s a _ Hs. etransitivity; [exact Hs|apply H].
Qed.

(** A flight appended by the turn for a pair of the list is in the state at
    the end of the loop. *)
Lemma fold_left_keeps {A : Type} (step : state -> A -> state) (l : list A)
    (p : A) (f : Flight) :
  (∀ st a, flights st `prefix_of` flights (step st a)) ->
  (∀ st, f ∈ flights (step st p)) ->
  p ∈ l -> ∀ st, f ∈ flights (fold_left step l st).
Proof.
  intros Hgrow Hadd Hin st.
  apply list_elem_of_split in Hin as (l1 & l2 & ->).
  rewrite fold_left_app. simpl.
  eapply elem_of_prefix; [apply Hadd|apply fold_left_grows, Hgrow].
Qed.

Lemma hub_pair_step_adds h1 st h2 x :
  get_distance h1 h2 = Some x -> truth x = true -> geb x f150 = true ->
  direct_flight h1 h2 x ∈ flights (hub_pair_step get_distance h1 st h2).
Proof.
  intros E Ht Hx. unfold hub_pair_step. rewrite E, Ht, Hx. simpl.
  apply elem_of_app. right. left.
Qed.

Lemma spoke_step_adds a st h x :
  get_distance a h = Some x -> truth x = true -> geb x f150 = true ->
  direct_flight a h x ∈ flights (spoke_step get_distance a st h)
  ∧ direct_flight h a x ∈ flights (spoke_step get_distance a st h).
Proof.
  intros E Ht Hx. unfold spoke_step. rewrite E, Ht, Hx. simpl.
  split; rewrite !elem_of_app, !list_elem_of_singleton; tauto.
Qed.

(** The flights of the first two passes are in the generated network. *)
Lemma generate_hub_flight hubs airports h1 h2 x :
  (h1, h2) ∈ ordered_pairs hubs ->
  get_distance h1 h2 = Some x -> truth x = true -> geb x f150 = true ->
  direct_flight h1 h2 x ∈ flights (generate get_distance hubs airports).
Proof.
  intros Hin E Ht Hx. rewrite generate_fold.
  eapply elem_of_prefix;
    [|apply fold_left_grows; intros st [o d]; apply direct_pair_step_grows].
  eapply elem_of_prefix;
    [|apply fold_left_grows; intros st [a h]; apply spoke_step_grows].
  apply (fold_left_keeps _ _ (h1, h2)); [| |exact Hin].
  - intros st [a b]. apply hub_pair_step_grows.
  - intros st. now apply hub_pair_step_adds.
Qed.

Lemma generate_spoke_flights hubs airports a h x :
  a ∈ airports -> a ∉ hubs -> h ∈ hubs ->
  get_distance a h = Some x -> truth x = true -> geb x f150 = true ->
  direct_flight a h x ∈ flights (generate get_distance hubs airports)
  ∧ direct_flight h a x ∈ flights (generate get_distance hubs airports).
Proof.
  intros Ha Hn Hh E Ht Hx. rewrite generate_fold.
  assert (Hin : (a, h) ∈ spoke_pairs hubs airports)
    by (apply elem_of_spoke_pairs; tauto).
  split;
    (eapply elem_of_prefix;
       [|apply fold_left_grows; intros st [o d]; apply direct_pair_step_grows]);
    (apply (fold_left_keeps _ _ (a, h)); [| |exact Hin];
       [intros st [a' h']; apply spoke_step_grows
       |intros st; now apply spoke_step_adds]).
Qed.

Lemma generate_all_direct hubs airports :
  Forall (fun f => is_direct f = true ∧ via_hub f = None)
         (flights (generate get_distance hubs airports)).
Proof.
  apply (generate_invariant get_distance
           (fun st => Forall (fun f => is_direct f = true ∧ via_hub f = None)
                             (flights st))).
  - constructor.
  - intros st h1 h2 d _ _ Hst. rewrite flights_add_one_way.
    apply Forall_app. split; [exact Hst|]. now repeat constructor.
  - intros st a b d _ _ Hst. rewrite flights_add_both_ways.
    apply Forall_app. split; [exact Hst|]. now repeat constructor.
Qed.

End Growth.

(** *** Two distance functions *)

Section TwoDistances.

Variables gd1 gd2 : string -> string -> option float.

Lemma hub_step_ext o d acc hub :
  gd1 o hub = gd2 o hub -> gd1 hub d = gd2 hub d ->
  hub_step gd1 o d acc hub = hub_step gd2 o d acc hub.
Proof. unfold hub_step. now intros -> ->. Qed.

Lemma calculate_minimum_distance_through_hubs_ext o d hubs :
  (∀ hub, hub ∈ hubs -> gd1 o hub = gd2 o hub ∧ gd1 hub d = gd2 hub d) ->
  calculate_minimum_distance_through_hubs gd1 o d hubs
  = calculate_minimum_distance_through_hubs gd2 o d hubs.
Proof.
  intros H. unfold calculate_minimum_distance_through_hubs.
  apply fold_left_ext_in. intros acc hub Hhub.
  destruct (H hub Hhub). now apply hub_step_ext.
Qed.

Lemma should_create_direct_flight_ext o d x hubs :
  (∀ hub, hub ∈ hubs -> gd1 o hub = gd2 o hub ∧ gd1 hub d = gd2 hub d) ->
  should_create_direct_flight gd1 o d x hubs
  = should_create_direct_flight gd2 o d x hubs.
Proof.
  intros H. unfold should_create_direct_flight.
  now rewrite (calculate_minimum_distance_through_hubs_ext o d hubs H).
Qed.

Lemma direct_pair_step_ext hubs o st d :
  gd1 o d = gd2 o d ->
  (∀ hub, hub ∈ hubs -> gd1 o hub = gd2 o hub ∧ gd1 hub d = gd2 hub d) ->
  direct_pair_step gd1 hubs o st d = direct_pair_step gd2 hubs o st d.
Proof.
  intros Hod H. unfold direct_pair_step. rewrite Hod.
  destruct (gd2 o d) as [x|]; [|reflexivity].
  now rewrite (should_create_direct_flight_ext o d x hubs H).
Qed.

(** The generation reads the distance function only at codes of the hub
    list and of the airport list. *)
Lemma generate_ext hubs airports :
  agree_on (hubs ++ airports) gd1 gd2 ->
  generate gd1 hubs airports = generate gd2 hubs airports.
Proof.
  intros H. rewrite !generate_fold.
  assert (Hh : ∀ h, h ∈ hubs -> h ∈ hubs ++ airports)
    by (intros; apply elem_of_app; now left).
  assert (Ha : ∀ a, a ∈ airports -> a ∈ hubs ++ airports)
    by (intros; apply elem_of_app; now right).
  assert (E1 : fold_left (hub_pair gd1) (ordered_pairs hubs) (mkState [] ∅)
               = fold_left (hub_pair gd2) (ordered_pairs hubs) (mkState [] ∅)).
  { apply fold_left_ext_in. intros st [h1 h2] [H1 H2]%elem_of_ordered_pairs_r.
    unfold hub_pair, hub_pair_step; simpl. rewrite (H h1 h2); auto. }
  rewrite E1. clear E1.
  set (s1 := fold_left (hub_pair gd2) _ _).
  assert (E2 : fold_left (spoke_pair gd1) (spoke_pairs hubs airports) s1
               = fold_left (spoke_pair gd2) (spoke_pairs hubs airports) s1).
  { apply fold_left_ext_in. intros st [a h] (H1 & _ & H2)%elem_of_spoke_pairs.
    unfold spoke_pair, spoke_step; simpl. rewrite (H a h); auto. }
  rewrite E2. clear E2.
  apply fold_left_ext_in. intros st [o d] [H1 H2]%elem_of_ordered_pairs_r.
  unfold direct_pair; simpl. apply direct_pair_step_ext; [auto|].
  intros hub Hhub. split; apply H; auto.
Qed.

End TwoDistances.

(** *** A zero distance reads as a missing one *)

Section ZeroDistance.

Variable get_distance : string -> string -> option float.

Lemma hub_step_zero o d acc hub :
  hub_step (zero_as_missing get_distance) o d acc hub
  = hub_step get_distance o d acc hub.
Proof.
  unfold hub_step, zero_as_missing, truth.
  case_bool_decide; [reflexivity|].
  destruct (get_distance o hub) as [x|], (get_distance hub d) as [y|];
    try reflexivity;
    destruct (eqb x zero) eqn:Ex; try destruct (eqb y zero) eqn:Ey;
    simpl; rewrite ?Ex, ?Ey; reflexivity.
Qed.

Lemma calculate_minimum_distance_through_hubs_zero o d hubs :
  calculate_minimum_distance_through_hubs (zero_as_missing get_distance) o d hubs
  = calculate_minimum_distance_through_hubs get_distance o d hubs.
Proof.
  unfold calculate_minimum_distance_through_hubs. apply fold_left_ext_in.
  intros acc hub _. apply hub_step_zero.
Qed.

Lemma hub_pair_step_zero h1 st h2 :
  hub_pair_step (zero_as_missing get_distance) h1 st h2
  = hub_pair_step get_distance h1 st h2.
Proof.
  unfold hub_pair_step, zero_as_missing, truth.
  destruct (get_distance h1 h2) as [x|]; [|reflexivity].
  destruct (eqb x zero) eqn:Ex; simpl; rewrite ?Ex; reflexivity.
Qed.

Lemma spoke_step_zero a st h :
  spoke_step (zero_as_missing get_distance) a st h
  = spoke_step get_distance a st h.
Proof.
  unfold spoke_step, zero_as_missing, truth.
  destruct (get_distance a h) as [x|]; [|reflexivity].
  destruct (eqb x zero) eqn:Ex; simpl; rewrite ?Ex; reflexivity.
Qed.

Lemma direct_pair_step_zero hubs o st d :
  direct_pair_step (zero_as_missing get_distance) hubs o st d
  = direct_pair_step get_distance hubs o st d.
Proof.
  unfold direct_pair_step, should_create_direct_flight.
  rewrite calculate_minimum_distance_through_hubs_zero.
  unfold zero_as_missing at 1. unfold truth.
  destruct (get_distance o d) as [x|]; [|reflexivity].
  destruct (eqb x zero) eqn:Ex; simpl; rewrite ?Ex; reflexivity.
Qed.

Lemma generate_zero hubs airports :
  generate (zero_as_missing get_distance) hubs airports
  = generate get_distance hubs airports.
Proof.
  rewrite !generate_fold.
  assert (E1 : ∀ st, fold_left (hub_pair (zero_as_missing get_distance))
                       (ordered_pairs hubs) st
                     = fold_left (hub_pair get_distance) (ordered_pairs hubs) st).
  { apply fold_left_ext_in. intros st p _. apply hub_pair_step_zero. }
  assert (E2 : ∀ st, fold_left (spoke_pair (zero_as_missing get_distance))
                       (spoke_pairs hubs airports) st
                     = fold_left (spoke_pair get_distance)
                         (spoke_pairs hubs airports) st).
  { apply fold_left_ext_in. intros st p _. apply spoke_step_zero. }
  rewrite E1, E2. apply fold_left_ext_in.
  intros st p _. apply direct_pair_step_zero.
Qed.

End ZeroDistance.

(** *** The search for the best hub *)

Section HubSearch.

Variable get_distance : string -> string -> option float.

Lemma hub_step_skip o d acc hub :
  (hub ≠ o -> hub ≠ d ->
     ¬ (truthy (get_distance o hub) = true ∧ truthy (get_distance hub d) = true)) ->
  hub_step get_distance o d acc hub = acc.
Proof.
  intros H. unfold hub_step.
  case_bool_decide as Hhub; [reflexivity|].
  destruct (get_distance o hub) as [x|], (get_distance hub d) as [y|];
    try reflexivity.
  destruct (truth x) eqn:Ex, (truth y) eqn:Ey; try reflexivity.
  exfalso. apply H; simpl; tauto.
Qed.

(** Without a qualifying hub the search returns its initial value. *)
Lemma no_qualifying_hub_inf o d hubs :
  no_qualifying_hub get_distance o d hubs ->
  calculate_minimum_distance_through_hubs get_distance o d hubs = (inf, None).
Proof.
  intros H. unfold calculate_minimum_distance_through_hubs.
  apply (fold_left_invariant (fun acc => acc = (inf, None))); [|reflexivity].
  intros acc hub Hhub ->. apply hub_step_skip. now apply H.
Qed.

End HubSearch.

(** *** The constraint check *)

Section Verify.

Variable format_2f : float -> string.

Lemma verify_all_valid (fl : list Flight) :
  Forall (fun f => geb (distance f) f150 = true) fl ->
  verify_network_constraints format_2f fl = (true, []).
Proof.
  intros H. unfold verify_network_constraints.
  assert (E : fold_left (verify_step format_2f) fl [] = []).
  { apply (fold_left_invariant (fun v => v = [])); [|reflexivity].
    intros v f Hf ->. unfold verify_step.
    rewrite Forall_forall in H.
    now rewrite (leb_not_ltb _ _ (H f Hf)). }
  now rewrite E.
Qed.

Lemma verify_violations (fl : list Flight) :
  snd (verify_network_constraints format_2f fl)
  = map (violation format_2f)
        (List.filter (fun f => ltb (distance f) f150) fl).
Proof.
  unfold verify_network_constraints; simpl.
  cut (∀ acc, fold_left (verify_step format_2f) fl acc
              = acc ++ map (violation format_2f)
                           (List.filter (fun f => ltb (distance f) f150) fl)).
  { intros H. apply (H []). }
  induction fl as [|f fl IH]; simpl; intros acc; [now rewrite app_nil_r|].
  rewrite IH. unfold verify_step.
  destruct (ltb (distance f) f150); simpl; [|reflexivity].
  now rewrite <- app_assoc.
Qed.

Lemma verify_valid_iff (fl : list Flight) :
  fst (verify_network_constraints format_2f fl) = true
  ↔ Forall (fun f => ltb (distance f) f150 = false) fl.
Proof.
  pose proof (verify_violations fl) as E.
  unfold verify_network_constraints in *; simpl in *. rewrite E.
  rewrite Nat.eqb_eq, length_map. clear E.
  induction fl as [|f fl IH]; simpl.
  - split; [constructor|reflexivity].
  - destruct (ltb (distance f) f150) eqn:Ef; simpl.
    + split; [discriminate|]. intros H. inversion H; congruence.
    + rewrite IH. split; [now constructor|]. intros H. now inversion H.
Qed.

End Verify.

(** *** Route options *)

Section Routes.

Lemma binary_insert_perm fuel : ∀ pivot a,
  binary_insert fuel pivot a ≡ₚ pivot :: a.
Proof.
  induction fuel as [|fuel IH]; intros pivot a; cbn [binary_insert];
    [reflexivity|].
  destruct (a !! (length a / 2)%nat) as [y|]; [|reflexivity].
  destruct (key_lt pivot y).
  - rewrite IH. simpl. now rewrite take_drop.
  - rewrite IH, <- Permutation_middle. now rewrite take_drop.
Qed.

Lemma binarysort_perm rest : ∀ run, binarysort run rest ≡ₚ run ++ rest.
Proof.
  unfold binarysort. induction rest as [|x rest IH]; intros run; simpl.
  - now rewrite app_nil_r.
  - rewrite IH, binary_insert_perm. simpl. now rewrite <- Permutation_middle.
Qed.

Lemma ascending_run_app l : ∀ prev,
  (ascending_run prev l).1 ++ (ascending_run prev l).2 = l.
Proof.
  induction l as [|x l IH]; intros prev; simpl; [reflexivity|].
  destruct (key_lt x prev); [reflexivity|].
  specialize (IH x). destruct (ascending_run x l) as [run rest]. simpl in *.
  now rewrite IH.
Qed.

Lemma descending_run_app l : ∀ prev,
  (descending_run prev l).1 ++ (descending_run prev l).2 = l.
Proof.
  induction l as [|x l IH]; intros prev; simpl; [reflexivity|].
  destruct (key_lt x prev); [|reflexivity].
  specialize (IH x). destruct (descending_run x l) as [run rest]. simpl in *.
  now rewrite IH.
Qed.

Lemma count_run_perm l : (count_run l).1 ++ (count_run l).2 ≡ₚ l.
Proof.
  destruct l as [|x [|y l]]; simpl; try now rewrite ?app_nil_r.
  destruct (key_lt y x).
  - pose proof (descending_run_app l y) as E.
    destruct (descending_run y l) as [run rest]. simpl in E.
    cbn [fst snd]. rewrite <- E.
    change (x :: y :: run ++ rest) with ((x :: y :: run) ++ rest).
    apply Permutation_app_tail. symmetry. apply Permutation_rev.
  - pose proof (ascending_run_app l y) as E.
    destruct (ascending_run y l) as [run rest]. simpl in *. now rewrite E.
Qed.

Lemma sort_by_distance_perm l : sort_by_distance l ≡ₚ l.
Proof.
  unfold sort_by_distance. pose proof (count_run_perm l) as H.
  destruct (count_run l) as [run rest]. now rewrite binarysort_perm.
Qed.

Lemma sort_by_distance_length l : length (sort_by_distance l) = length l.
Proof. apply Permutation_length, sort_by_distance_perm. Qed.

Lemma sort_by_distance_nil l : sort_by_distance l = [] ↔ l = [].
Proof.
  split; [|now intros ->].
  intros H. pose proof (sort_by_distance_length l) as E. rewrite H in E.
  destruct l; [reflexivity|discriminate].
Qed.

(** *** On keys without NaN the result is in ascending order *)

#[local] Instance le_key_trans : Transitive le_key.
Proof. intros x y z. apply leb_trans. Qed.

Lemma key_lt_le x y : key_lt x y = true -> le_key x y.
Proof. apply ltb_leb. Qed.

Lemma not_key_lt_le x y :
  not_nan x -> not_nan y -> key_lt x y = false -> le_key y x.
Proof. apply not_ltb_leb. Qed.

Lemma binary_insert_sorted fuel : ∀ pivot a,
  (length a ≤ fuel)%nat -> not_nan pivot -> Forall not_nan a ->
  StronglySorted le_key a -> StronglySorted le_key (binary_insert fuel pivot a).
Proof.
  induction fuel as [|fuel IH]; intros pivot a Hlen Hp Ha Hs;
    cbn [binary_insert].
  { destruct a; [|simpl in Hlen; lia]. repeat constructor. }
  destruct (a !! (length a / 2)%nat) as [y|] eqn:E.
  2:{ apply lookup_ge_None in E. destruct a as [|z a]; [repeat constructor|].
      exfalso. pose proof (Nat.div_lt (length (z :: a)) 2) as Hd.
      cbn [length] in *. lia. }
  assert (Hlt : (length a / 2 < length a)%nat)
    by (apply lookup_lt_is_Some; eauto).
  assert (Hy : not_nan y).
  { rewrite Forall_forall in Ha. apply Ha. eapply list_elem_of_lookup_2, E. }
  pose proof (take_drop_middle a _ y E) as Ea.
  rewrite <- Ea in Hs. apply StronglySorted_app in Hs as (H12 & H1 & H2).
  apply StronglySorted_cons in H2 as [Hy2 H2]. rewrite Forall_forall in Hy2.
  assert (Ht : Forall not_nan (take (length a / 2) a)) by now apply Forall_take.
  assert (Hd : Forall not_nan (drop (S (length a / 2)) a)) by now apply Forall_drop.
  destruct (key_lt pivot y) eqn:Hk.
  - rewrite (drop_S a y _ E). apply StronglySorted_app. split; [|split].
    + intros x1 x2 Hx1 Hx2.
      rewrite binary_insert_perm in Hx1.
      apply elem_of_cons in Hx1 as [->|Hx1].
      * apply elem_of_cons in Hx2 as [->|Hx2]; [now apply key_lt_le|].
        etransitivity; [apply key_lt_le, Hk|now apply Hy2].
      * now apply H12.
    + apply IH; auto. rewrite length_take. lia.
    + apply StronglySorted_cons. split; [now apply Forall_forall|exact H2].
  - rewrite (take_S_r a _ y E), <- app_assoc. simpl.
    apply StronglySorted_app. split; [|split]; [|exact H1|].
    + intros x1 x2 Hx1 Hx2. apply elem_of_cons in Hx2 as [->|Hx2].
      * apply H12; [exact Hx1|left].
      * rewrite binary_insert_perm in Hx2.
        apply elem_of_cons in Hx2 as [->|Hx2].
        -- etransitivity; [apply H12; [exact Hx1|left]|].
           now apply not_key_lt_le.
        -- apply H12; [exact Hx1|now right].
    + apply StronglySorted_cons. split.
      * apply Forall_forall. intros x Hx. rewrite binary_insert_perm in Hx.
        apply elem_of_cons in Hx as [->|Hx]; [now apply not_key_lt_le|].
        now apply Hy2.
      * apply IH; auto. rewrite length_drop. lia.
Qed.

Lemma binarysort_sorted rest : ∀ run,
  Forall not_nan run -> Forall not_nan rest ->
  StronglySorted le_key run -> StronglySorted le_key (binarysort run rest).
Proof.
  unfold binarysort. induction rest as [|x rest IH]; intros run Hr Hn Hs; simpl;
    [exact Hs|].
  inversion Hn as [|? ? Hx Hrest]; subst.
  apply IH; [|exact Hrest|].
  - eapply Forall_forall. intros y Hy. rewrite binary_insert_perm in Hy.
    apply elem_of_cons in Hy as [->|Hy]; [exact Hx|].
    rewrite Forall_forall in Hr. now apply Hr.
  - now apply binary_insert_sorted.
Qed.

Lemma ascending_run_sorted l : ∀ prev,
  not_nan prev -> Forall not_nan l ->
  Sorted le_key (prev :: (ascending_run prev l).1).
Proof.
  induction l as [|x l IH]; intros prev Hp Hl; simpl; [repeat constructor|].
  inversion Hl as [|? ? Hx Hl']; subst.
  destruct (key_lt x prev) eqn:Hk; [repeat constructor|].
  specialize (IH x Hx Hl'). destruct (ascending_run x l) as [run rest].
  simpl in *. constructor; [exact IH|]. constructor. now apply not_key_lt_le.
Qed.

Lemma descending_run_sorted l : ∀ prev,
  Sorted (flip le_key) (prev :: (descending_run prev l).1).
Proof.
  induction l as [|x l IH]; intros prev; simpl; [repeat constructor|].
  destruct (key_lt x prev) eqn:Hk; [|repeat constructor].
  specialize (IH x). destruct (descending_run x l) as [run rest].
  simpl in *. constructor; [exact IH|]. constructor. now apply key_lt_le.
Qed.

Lemma StronglySorted_rev {A : Type} (R : relation A) (l : list A) :
  StronglySorted (flip R) l -> StronglySorted R (rev l).
Proof.
  induction 1 as [|x l Hs IH Hx]; simpl; [constructor|].
  apply StronglySorted_app. split; [|split]; [|exact IH|repeat constructor].
  intros x1 x2 Hx1 Hx2%list_elem_of_singleton. subst x2.
  apply list_elem_of_In, in_rev, list_elem_of_In in Hx1.
  rewrite Forall_forall in Hx. now apply Hx.
Qed.

Lemma count_run_not_nan l :
  Forall not_nan l ->
  Forall not_nan (count_run l).1 ∧ Forall not_nan (count_run l).2.
Proof.
  intros H. pose proof (count_run_perm l) as E.
  rewrite <- E in H. now apply Forall_app in H.
Qed.

Lemma count_run_sorted l :
  Forall not_nan l -> StronglySorted le_key (count_run l).1.
Proof.
  intros Hl. destruct l as [|x [|y l]]; cbn [count_run fst];
    [repeat constructor..|].
  inversion Hl as [|? ? Hx Hl']; subst. inversion Hl' as [|? ? Hy Hl'']; subst.
  destruct (key_lt y x) eqn:Hk.
  - pose proof (descending_run_sorted l y) as H.
    destruct (descending_run y l) as [run rest]. cbn [fst snd] in *.
    apply StronglySorted_rev, Sorted_StronglySorted.
    { intros a b c Hab Hbc. unfold flip in *. now transitivity b. }
    constructor; [exact H|]. constructor. now apply key_lt_le.
  - pose proof (ascending_run_sorted l y Hy Hl'') as H.
    destruct (ascending_run y l) as [run rest]. cbn [fst snd] in *.
    apply Sorted_StronglySorted; [apply _|].
    constructor; [exact H|]. constructor. now apply not_key_lt_le.
Qed.

Lemma sort_by_distance_ascending l :
  Forall not_nan l -> ascending (sort_by_distance l).
Proof.
  intros Hl. unfold ascending, sort_by_distance.
  destruct (count_run_not_nan l Hl) as [Hr Hn].
  pose proof (count_run_sorted l Hl) as Hs.
  destruct (count_run l) as [run rest]. cbn [fst snd] in *.
  apply StronglySorted_Sorted. now apply binarysort_sorted.
Qed.

(** A list in which no element is less than the one before it is one run:
    the sort returns it as it is. *)
Lemma ascending_run_all l : ∀ prev,
  Sorted (fun x y => key_lt y x = false) (prev :: l) ->
  ascending_run prev l = (l, []).
Proof.
  induction l as [|x l IH]; intros prev H; simpl; [reflexivity|].
  inversion H as [|? ? Hs Hhd]; subst. inversion Hhd as [|? ? Hk]; subst.
  rewrite Hk, (IH x Hs). reflexivity.
Qed.

Lemma sort_by_distance_run l :
  Sorted (fun x y => key_lt y x = false) l -> sort_by_distance l = l.
Proof.
  intros H. unfold sort_by_distance.
  destruct l as [|x [|y l]]; try reflexivity. simpl.
  inversion H as [|? ? Hs Hhd]; subst. inversion Hhd as [|? ? Hk]; subst.
  rewrite Hk, (ascending_run_all l y Hs). reflexivity.
Qed.

Lemma elem_of_legs f a b fl : f ∈ legs a b fl ↔ f ∈ fl ∧ goes f a b.
Proof.
  unfold legs, goes. rewrite !list_elem_of_In, filter_In, andb_true_iff,
    !bool_decide_eq_true. tauto.
Qed.

Lemma legs_nil a b fl : legs a b fl = [] ↔ ¬ ∃ f, f ∈ fl ∧ goes f a b.
Proof.
  split.
  - intros H (f & Hf). apply elem_of_legs in Hf. rewrite H in Hf.
    now apply elem_of_nil in Hf.
  - intros H. destruct (legs a b fl) as [|f l] eqn:E; [reflexivity|].
    exfalso. apply H. exists f. apply elem_of_legs. rewrite E. left.
Qed.

Lemma direct_option_nil o d fl :
  direct_option o d fl = [] ↔ ¬ has_direct o d fl.
Proof.
  unfold direct_option, has_direct. split.
  - intros H (f & Hf & Hg & Hd).
    assert (Hin : f ∈ List.filter is_direct (legs o d fl)).
    { apply list_elem_of_In, filter_In. split; [|exact Hd].
      apply list_elem_of_In, elem_of_legs. done. }
    destruct (List.filter is_direct (legs o d fl)); [|discriminate].
    now apply elem_of_nil in Hin.
  - intros H. destruct (List.filter is_direct (legs o d fl)) as [|f l] eqn:E;
      [reflexivity|].
    exfalso. apply H. exists f.
    assert (Hin : In f (List.filter is_direct (legs o d fl))) by (rewrite E; now left).
    apply filter_In in Hin as [Hin Hd].
    apply list_elem_of_In, elem_of_legs in Hin. tauto.
Qed.

Lemma hub_option_nil o d fl hub :
  hub_option o d fl hub = []
  ↔ hub = o ∨ hub = d ∨ legs o hub fl = [] ∨ legs hub d fl = [].
Proof.
  unfold hub_option. case_bool_decide as H; [tauto|].
  destruct (legs o hub fl), (legs hub d fl); split; try tauto; try discriminate.
  intros [?|[?|[?|?]]]; try discriminate; tauto.
Qed.

Lemma flat_map_nil {A B : Type} (f : A -> list B) (l : list A) :
  flat_map f l = [] ↔ ∀ x, x ∈ l -> f x = [].
Proof.
  induction l as [|y l IH]; simpl.
  - split; [|reflexivity]. now intros _ x ?%elem_of_nil.
  - split.
    + intros [H1 H2]%app_eq_nil x [->|Hx]%elem_of_cons; [exact H1|].
      now apply IH.
    + intros H. rewrite (H y) by left. simpl. apply IH.
      intros x Hx. apply H. now right.
Qed.

(** There is no option exactly when there is neither a direct flight nor a
    connection through a hub. *)
Lemma route_options_nil hubs o d fl :
  route_options hubs o d fl = []
  ↔ ¬ has_direct o d fl ∧ ¬ has_hub_connection hubs o d fl.
Proof.
  unfold route_options.
  rewrite sort_by_distance_nil. split.
  - intros [H1 H2]%app_eq_nil. split; [now apply direct_option_nil|].
    intros (hub & leg1 & leg2 & Hh & Ho & Hd & Hl1 & Hg1 & Hl2 & Hg2).
    rewrite flat_map_nil in H2.
    pose proof (H2 hub Hh) as H2'.
    apply hub_option_nil in H2' as [?|[?|[H3|H3]]]; try contradiction.
    + apply legs_nil in H3. apply H3. eauto.
    + apply legs_nil in H3. apply H3. eauto.
  - intros [H1 H2]. apply direct_option_nil in H1. rewrite H1. simpl.
    apply flat_map_nil. intros hub Hh. apply hub_option_nil.
    destruct (decide (hub = o)) as [|Ho]; [tauto|].
    destruct (decide (hub = d)) as [|Hd]; [tauto|].
    right. right.
    destruct (legs o hub fl) as [|l1 r1] eqn:E1; [tauto|].
    destruct (legs hub d fl) as [|l2 r2] eqn:E2; [tauto|].
    exfalso. apply H2. exists hub, l1, l2.
    assert (I1 : l1 ∈ legs o hub fl) by (rewrite E1; left).
    assert (I2 : l2 ∈ legs hub d fl) by (rewrite E2; left).
    apply elem_of_legs in I1, I2. tauto.
Qed.

Lemma direct_option_not_nan o d fl :
  nonnegative_distances fl -> Forall not_nan (direct_option o d fl).
Proof.
  intros H. unfold direct_option.
  destruct (List.filter is_direct (legs o d fl)) as [|f l] eqn:E; constructor;
    [|constructor].
  assert (Hin : In f (List.filter is_direct (legs o d fl))) by (rewrite E; now left).
  apply filter_In in Hin as [Hin _].
  apply list_elem_of_In, elem_of_legs in Hin as [Hin _].
  unfold nonnegative_distances in H. rewrite Forall_forall in H.
  apply leb_zero_not_nan, H, Hin.
Qed.

Lemma hub_option_not_nan o d fl hub :
  nonnegative_distances fl -> Forall not_nan (hub_option o d fl hub).
Proof.
  intros H. unfold hub_option. case_bool_decide; [constructor|].
  destruct (legs o hub fl) as [|l1 r1] eqn:E1; [constructor|].
  destruct (legs hub d fl) as [|l2 r2] eqn:E2; constructor; [|constructor].
  assert (I1 : l1 ∈ legs o hub fl) by (rewrite E1; left).
  assert (I2 : l2 ∈ legs hub d fl) by (rewrite E2; left).
  apply elem_of_legs in I1 as [I1 _], I2 as [I2 _].
  unfold nonnegative_distances in H. rewrite Forall_forall in H.
  apply add_nonneg_not_nan; now apply H.
Qed.

Lemma route_options_ascending hubs o d fl :
  nonnegative_distances fl -> ascending (route_options hubs o d fl).
Proof.
  intros H. apply sort_by_distance_ascending, Forall_app. split.
  - now apply direct_option_not_nan.
  - apply Forall_forall. intros x Hx.
    apply list_elem_of_In, in_flat_map in Hx as (hub & _ & Hx).
    pose proof (hub_option_not_nan o d fl hub H) as Hn.
    rewrite Forall_forall in Hn. apply Hn, list_elem_of_In, Hx.
Qed.

End Routes.

End FlightNetworkFacts.

(** ** The claims *)

Import FlightNetwork Props Samples PyFloatFacts FlightNetworkFacts.

(** *** C1 *)

(** C1, counterexample.  [should_create_direct_flight('XXX', 'HNL', 4500.0,
    MAJOR_HUBS)], where [XXX] is not an airport code: the direct distance is
    at least 1000 miles and no hub has two resolved legs, and the answer is
    [True]: the direct flight is created. *)
Lemma should_create_direct_flight_no_hub_counterexample :
  geb f4500 f1000 = true
  ∧ no_qualifying_hub sample_distance "XXX" "HNL" MAJOR_HUBS
  ∧ should_create_direct_flight sample_distance "XXX" "HNL" f4500 MAJOR_HUBS = true.
Proof.
  split; [reflexivity|]. split; [|vm_compute; reflexivity].
  intros hub Hhub _ _ [H _]. unfold MAJOR_HUBS in Hhub.
  repeat (apply elem_of_cons in Hhub as [->|Hhub]; [vm_compute in H; discriminate|]).
  now apply elem_of_nil in Hhub.
Qed.

(** C1, as amended.  When the direct distance is finite and at least 1000
    miles and no hub other than the origin and the destination has two
    resolved non-zero legs, the minimum hub distance stays [inf], which is
    greater than 0; the ratio is [direct_distance / inf = 0.0 <= 0.85] and
    [should_create_direct_flight] returns [True]. *)
Theorem should_create_direct_flight_no_hub
    (get_distance : string -> string -> option float)
    (origin destination : string) (direct_distance : float) (hubs : list string) :
  is_finite direct_distance = true ->
  geb direct_distance f1000 = true ->
  no_qualifying_hub get_distance origin destination hubs ->
  should_create_direct_flight get_distance origin destination direct_distance hubs
  = true.
Proof.
  intros Hfin Hge Hno. unfold should_create_direct_flight.
  rewrite (no_qualifying_hub_inf _ _ _ _ Hno). simpl.
  assert (H150 : leb f150 direct_distance = true)
    by (apply (leb_trans f150 f1000); [reflexivity|exact Hge]).
  rewrite (leb_not_ltb _ _ H150), (leb_not_ltb _ _ Hge).
  destruct direct_distance as [s|s| |s m e]; try discriminate.
  destruct s; [discriminate|reflexivity].
Qed.

(** The amended C1 at an unknown origin code: no hub leg is resolved. *)
Lemma should_create_direct_flight_no_hub_witness :
  should_create_direct_flight sample_distance "XXX" "HNL" f4500 MAJOR_HUBS = true.
Proof.
  apply (should_create_direct_flight_no_hub sample_distance "XXX" "HNL" f4500 MAJOR_HUBS).
  - reflexivity.
  - reflexivity.
  - intros hub Hhub _ _ [H _]. unfold MAJOR_HUBS in Hhub.
    repeat (apply elem_of_cons in Hhub as [->|Hhub]; [vm_compute in H; discriminate|]).
    now apply elem_of_nil in Hhub.
Defined.

(** *** C2 *)

(** C2.  Whatever the distances are, the generated network has no flight
    from a hub back to a hub that comes earlier in [MAJOR_HUBS]: the
    hub-to-hub loop appends [Flight(hub1, hub2, ...)] only, and the two other
    loops skip the pairs of hubs.  So no pair of hubs has a direct edge in
    both directions, and [get_route_options] finds no route at all from a hub
    to ATL, the first hub of the list. *)
Theorem hub_pairs_have_no_return_flight
    (get_distance : string -> string -> option float) :
  Forall (fun p : string * string =>
            Forall (fun f => ¬ goes f p.2 p.1)
                   (generate_flight_network get_distance))
         (ordered_pairs MAJOR_HUBS)
  ∧ Forall (fun hub =>
              get_route_options hub "ATL" (generate_flight_network get_distance)
              = [])
           MAJOR_HUBS.
Proof.
  assert (H : Forall (hub_order MAJOR_HUBS) (generate_flight_network get_distance))
    by exact (generate_hub_order get_distance MAJOR_HUBS US_AIRPORTS).
  rewrite Forall_forall in H.
  assert (G : ∀ a b, a ∈ MAJOR_HUBS -> b ∈ MAJOR_HUBS ->
                (a, b) ∉ ordered_pairs MAJOR_HUBS ->
                ∀ f, f ∈ generate_flight_network get_distance -> ¬ goes f a b).
  { intros a b Ha Hb Hab f Hf [Ho Hd]. specialize (H f Hf).
    unfold hub_order in H. rewrite Ho, Hd in H. tauto. }
  assert (A : ∀ hub, hub ∈ MAJOR_HUBS ->
                ∀ f, f ∈ generate_flight_network get_distance ->
                ¬ goes f hub "ATL").
  { intros hub Hhub. apply G; [exact Hhub|compute_done|].
    unfold MAJOR_HUBS in Hhub.
    repeat (apply elem_of_cons in Hhub as [->|Hhub]; [compute_done|]).
    now apply elem_of_nil in Hhub. }
  split.
  - repeat constructor; simpl; apply Forall_forall, G; compute_done.
  - apply Forall_forall. intros hub Hhub. apply route_options_nil. split.
    + intros (f & Hf & Hg & _). exact (A hub Hhub f Hf Hg).
    + intros (h & l1 & l2 & Hh & _ & _ & _ & _ & Hl2 & Hg2).
      exact (A h Hh l2 Hl2 Hg2).
Qed.

(** *** C3 *)

(** C3.  Every flight returned by [generate_flight_network] has a distance
    of at least 150 miles, and [verify_network_constraints] on that list
    returns [(True, [])]. *)
Theorem generated_flights_at_least_150
    (get_distance : string -> string -> option float)
    (format_2f : float -> string) :
  Forall (fun f => geb (distance f) f150 = true)
         (generate_flight_network get_distance)
  ∧ verify_network_constraints format_2f (generate_flight_network get_distance)
    = (true, []).
Proof.
  assert (H : Forall (fun f => geb (distance f) f150 = true)
                     (generate_flight_network get_distance))
    by exact (generate_min_distance get_distance MAJOR_HUBS US_AIRPORTS).
  split; [exact H|]. apply verify_all_valid, H.
Qed.

(** *** C4 *)

(** C4, counterexample.  On the sample table the direct pass evaluates
    JFK-LGA, which the distance check skips (11 miles), and LAX-JFK, which
    [should_create_direct_flight] rejects (1200 miles direct, 1200 miles
    through a hub): neither pair is in [processed_pairs] at the end. *)
Lemma skipped_pair_not_processed_counterexample :
  let st := generate_flight_network_state sample_distance in
  (("JFK", "LGA") ∈ ordered_pairs US_AIRPORTS
   ∧ ("JFK" ∉ MAJOR_HUBS) ∧ ("LGA" ∉ MAJOR_HUBS)
   ∧ sample_distance "JFK" "LGA" = Some f11
   ∧ geb f11 f150 = false
   ∧ (("JFK", "LGA") ∉ processed_pairs st)
   ∧ (("LGA", "JFK") ∉ processed_pairs st))
  ∧ (("LAX", "JFK") ∈ ordered_pairs US_AIRPORTS
     ∧ ("LAX" ∉ MAJOR_HUBS) ∧ ("JFK" ∉ MAJOR_HUBS)
     ∧ sample_distance "LAX" "JFK" = Some f1200
     ∧ geb f1200 f150 = true
     ∧ should_create_direct_flight sample_distance "LAX" "JFK" f1200 MAJOR_HUBS
       = false
     ∧ (("LAX", "JFK") ∉ processed_pairs st)
     ∧ (("JFK", "LAX") ∉ processed_pairs st)).
Proof.
  cbv zeta.
  destruct (not_processed_of_no_flight sample_distance "JFK" "LGA") as [H1 H2];
    [vm_compute; reflexivity|].
  destruct (not_processed_of_no_flight sample_distance "LAX" "JFK") as [H3 H4];
    [vm_compute; reflexivity|].
  repeat split;
    [ compute_done | compute_done | compute_done | exact H1 | exact H2
    | compute_done | compute_done | compute_done | exact H3 | exact H4 ].
Qed.

(** C4, as amended.  A turn of the direct pass either leaves the state as it
    is, or, when the pair is unmarked, has no hub, has a non-zero distance of
    at least 150 miles and [should_create_direct_flight] accepts it, appends
    the two flights and marks the pair in both orders.  At the end of the
    generation a pair is in [processed_pairs] exactly when a flight joins its
    two airports: a pair that the distance check skips or that
    [should_create_direct_flight] rejects is not added. *)
Theorem processed_iff_flight_created
    (get_distance : string -> string -> option float) :
  (∀ hubs origin destination st,
     direct_pair_step get_distance hubs origin st destination = st
     ∨ ∃ x, ((origin, destination) ∉ processed_pairs st)
          ∧ (origin ∉ hubs) ∧ (destination ∉ hubs)
          ∧ get_distance origin destination = Some x
          ∧ truth x = true ∧ geb x f150 = true
          ∧ should_create_direct_flight get_distance origin destination x hubs
            = true
          ∧ direct_pair_step get_distance hubs origin st destination
            = add_both_ways origin destination x st)
  ∧ (∀ a b,
       (a, b) ∈ processed_pairs (generate_flight_network_state get_distance)
       ↔ ∃ f, f ∈ generate_flight_network get_distance ∧ connects f a b).
Proof.
  split.
  - intros hubs o d st. apply direct_pair_step_cases.
  - exact (generate_marked_iff_joined get_distance MAJOR_HUBS US_AIRPORTS).
Qed.

(** *** C5 *)

(** C5.  Two runs of [generate_flight_network] whose catalogs give the same
    distances between the airports of [US_AIRPORTS] return the same flights
    in the same order (the hub list and the thresholds are constants). *)
Theorem generate_flight_network_deterministic
    (gd1 gd2 : string -> string -> option float) :
  agree_on US_AIRPORTS gd1 gd2 ->
  generate_flight_network gd1 = generate_flight_network gd2.
Proof.
  intros H. unfold generate_flight_network, generate_flight_network_state.
  f_equal. apply generate_ext. intros a b Ha Hb.
  assert (Hsub : ∀ c, c ∈ MAJOR_HUBS ++ US_AIRPORTS -> c ∈ US_AIRPORTS).
  { intros c [Hc|Hc]%elem_of_app; [|exact Hc].
    unfold MAJOR_HUBS in Hc.
    repeat (apply elem_of_cons in Hc as [->|Hc]; [compute_done|]).
    now apply elem_of_nil in Hc. }
  apply H; now apply Hsub.
Qed.

(** C5 on two tables that differ on Paris only, which is not in
    [US_AIRPORTS]. *)
Lemma generate_flight_network_deterministic_witness :
  generate_flight_network sample_distance
  = generate_flight_network sample_distance_cdg.
Proof.
  apply (generate_flight_network_deterministic sample_distance sample_distance_cdg).
  intros a b Ha Hb. unfold sample_distance_cdg.
  rewrite bool_decide_eq_false_2; [reflexivity|].
  assert (Hn : "CDG" ∉ US_AIRPORTS) by compute_done.
  intros [->| ->]; contradiction.
Defined.

(** *** C6 *)

(** C6, counterexample.  On five flights of which one has a NaN distance,
    the options from LAX to JFK are the direct flight of 2 miles, the
    connection through ATL of NaN miles and the connection through DFW of 1
    mile.  No option is less than the one before it, so the sort takes the
    list for a run and leaves it as it is: the option of 1 mile comes after
    the option of 2 miles. *)
Lemma get_route_options_sorted_counterexample :
  map opt_distance (get_route_options "LAX" "JFK" nan_flights) = [f2; nan; f1]
  ∧ ¬ ascending (get_route_options "LAX" "JFK" nan_flights).
Proof.
  assert (E : get_route_options "LAX" "JFK" nan_flights
              = [ mkRouteOption "direct" ["LAX"; "JFK"] f2 0 None;
                  mkRouteOption "hub_connection" ["LAX"; "ATL"; "JFK"] nan 1
                    (Some "ATL");
                  mkRouteOption "hub_connection" ["LAX"; "DFW"; "JFK"] f1 1
                    (Some "DFW") ])
    by (vm_compute; reflexivity).
  rewrite E. split; [reflexivity|].
  intros H. inversion H as [|? ? _ Hhd]; subst.
  inversion Hhd as [|? ? Hle]; subst. discriminate Hle.
Qed.

(** C6, as amended.  For every origin and destination, [get_route_options]
    returns its options in ascending order of distance whenever no option
    has a NaN distance; that is so on every list of flights whose distances
    are not negative (a flight edge has a positive distance), in particular
    on every list that [generate_flight_network] returns.  It returns the
    empty list exactly when there is neither a direct flight nor a
    connection through a hub. *)
Theorem get_route_options_sorted (origin destination : string) :
  (∀ flights,
     Forall not_nan (get_route_options origin destination flights) ->
     ascending (get_route_options origin destination flights))
  ∧ (∀ flights,
       nonnegative_distances flights ->
       ascending (get_route_options origin destination flights))
  ∧ (∀ get_distance,
       ascending (get_route_options origin destination
                    (generate_flight_network get_distance)))
  ∧ (∀ flights,
       get_route_options origin destination flights = []
       ↔ ¬ has_direct origin destination flights
         ∧ ¬ has_hub_connection MAJOR_HUBS origin destination flights).
Proof.
  split; [|split; [|split]].
  - intros fl H. unfold get_route_options, route_options in *.
    apply sort_by_distance_ascending.
    now rewrite sort_by_distance_perm in H.
  - intros fl H. now apply route_options_ascending.
  - intros gd. apply route_options_ascending.
    assert (H : Forall (fun f => geb (distance f) f150 = true)
                       (generate_flight_network gd))
      by exact (generate_min_distance gd MAJOR_HUBS US_AIRPORTS).
    eapply Forall_impl; [exact H|].
    intros f Hf. apply (leb_trans zero f150); [reflexivity|exact Hf].
  - intros fl. apply route_options_nil.
Qed.

(** C6 on three flights of positive distance. *)
Lemma get_route_options_sorted_witness :
  ascending (get_route_options "LAX" "JFK" sample_flights).
Proof.
  apply (proj1 (proj2 (get_route_options_sorted "LAX" "JFK")) sample_flights).
  repeat constructor.
Defined.

(** *** C7, C8 and C9 *)

Section DistanceClaims.

Import PyStr PyExc AirportReference ReferenceProps.

Variable str : StrModule.
Variable math : MathModule.

Lemma str_lower_kilometers :
  str_lower str "kilometers" = "kilometers" ∧ str_lower str "km" = "km"
  ∧ str_lower str "miles" = "miles".
Proof. now rewrite !str_lower_ascii by reflexivity. Qed.

Lemma unit_is_km_nocase (unit : string) :
  unit_is_km str unit = true
  ↔ eq_nocase str unit "kilometers" ∨ eq_nocase str unit "km".
Proof.
  destruct str_lower_kilometers as (E1 & E2 & _).
  unfold unit_is_km, eq_nocase. rewrite E1, E2.
  rewrite orb_true_iff, !bool_decide_eq_true. reflexivity.
Qed.

(** C7.  [get_distance] returns [None] exactly when one of the two codes is
    not in the catalog.  When both are, it calls [haversine_distance] on
    their coordinates and returns the distance that this call returns,
    multiplied by 1.60934 when the unit is "kilometers" or "km" up to case,
    and as it is otherwise; it raises what that call raises. *)
Theorem get_distance_spec (iata1 iata2 unit : string) :
  (get_distance str math iata1 iata2 unit = Return None
   ↔ get_airport str iata1 = None ∨ get_airport str iata2 = None)
  ∧ (∀ airport1 airport2,
       get_airport str iata1 = Some airport1 ->
       get_airport str iata2 = Some airport2 ->
       ((eq_nocase str unit "kilometers" ∨ eq_nocase str unit "km") ->
        get_distance str math iata1 iata2 unit
        = (miles ← haversine_distance math
                      (latitude airport1) (longitude airport1)
                      (latitude airport2) (longitude airport2);
           Return (Some (mul miles f1_60934))))
       ∧ (¬ (eq_nocase str unit "kilometers" ∨ eq_nocase str unit "km") ->
          get_distance str math iata1 iata2 unit
          = (miles ← haversine_distance math
                        (latitude airport1) (longitude airport1)
                        (latitude airport2) (longitude airport2);
             Return (Some miles)))).
Proof.
  unfold get_distance. split.
  - destruct (get_airport str iata1) as [a1|], (get_airport str iata2) as [a2|].
    + destruct (haversine_distance math _ _ _ _) as [d|e]; simpl;
        [destruct (unit_is_km str unit)|];
        (split; [discriminate|intros [?|?]; discriminate]).
    + split; auto.
    + split; auto.
    + split; auto.
  - intros a1 a2 -> ->. rewrite <- unit_is_km_nocase.
    destruct (unit_is_km str unit); split; intros H;
      try reflexivity; try discriminate. now destruct H.
Qed.

(** C8.  For every math module whose sine is odd and whose square is even,
    [haversine_distance] has the same outcome, the same float or the same
    exception, when its two points are exchanged, and so has [get_distance]
    when its two codes are. *)
Theorem haversine_distance_symmetric :
  (∀ u, math_sin math (SFopp u) = option_map SFopp (math_sin math u)) ->
  (∀ s, square math (SFopp s) = square math s) ->
  (∀ lat1 lon1 lat2 lon2,
     haversine_distance math lat1 lon1 lat2 lon2
     = haversine_distance math lat2 lon2 lat1 lon1)
  ∧ (∀ iata1 iata2 unit,
       get_distance str math iata1 iata2 unit
       = get_distance str math iata2 iata1 unit).
Proof.
  intros Hsin Hsq.
  assert (Hhalf : ∀ x y,
            (s ← raising ValueError (math_sin math (div (sub y x) f2));
             raising OverflowError (square math s))
            = (s ← raising ValueError (math_sin math (div (sub x y) f2));
               raising OverflowError (square math s))).
  { intros x y. destruct (sub_swap x y) as [E|[E1 E2]].
    - rewrite E, div_opp, Hsin.
      destruct (math_sin math (div (sub x y) f2)) as [v|]; simpl;
        [now rewrite Hsq|reflexivity].
    - now rewrite E1, E2. }
  pose (half := fun x y : float =>
                  s ← raising ValueError (math_sin math (div (sub y x) f2));
                  raising OverflowError (square math s)).
  assert (Hform : ∀ lat1 lon1 lat2 lon2,
            haversine_a math lat1 lon1 lat2 lon2
            = (square_dlat ← half (math_radians math lat1) (math_radians math lat2);
               cos_lat1 ← raising ValueError
                            (math_cos math (math_radians math lat1));
               cos_lat2 ← raising ValueError
                            (math_cos math (math_radians math lat2));
               square_dlon ← half (math_radians math lon1) (math_radians math lon2);
               Return (add square_dlat (mul (mul cos_lat1 cos_lat2) square_dlon)))).
  { intros lat1 lon1 lat2 lon2. unfold haversine_a, half.
    destruct (math_sin math (div (sub (math_radians math lat2)
                                      (math_radians math lat1)) f2)) as [u1|];
      simpl; [|reflexivity].
    destruct (square math u1) as [p1|]; simpl; [|reflexivity].
    destruct (math_cos math (math_radians math lat1)) as [c1|]; simpl;
      [|reflexivity].
    destruct (math_cos math (math_radians math lat2)) as [c2|]; simpl;
      [|reflexivity].
    destruct (math_sin math (div (sub (math_radians math lon2)
                                      (math_radians math lon1)) f2)) as [u2|];
      simpl; reflexivity. }
  assert (Ha : ∀ lat1 lon1 lat2 lon2,
            haversine_a math lat1 lon1 lat2 lon2
            = haversine_a math lat2 lon2 lat1 lon1).
  { intros lat1 lon1 lat2 lon2. rewrite !Hform. unfold half.
    rewrite (Hhalf (math_radians math lat1) (math_radians math lat2)),
            (Hhalf (math_radians math lon1) (math_radians math lon2)).
    fold (half (math_radians math lat2) (math_radians math lat1)).
    fold (half (math_radians math lon2) (math_radians math lon1)).
    destruct (half (math_radians math lat2) (math_radians math lat1)) as [q1|e1];
      simpl; [|reflexivity].
    destruct (math_cos math (math_radians math lat1)) as [c1|],
             (math_cos math (math_radians math lat2)) as [c2|];
      simpl; try reflexivity.
    now rewrite (mul_comm c1 c2). }
  assert (Hsym : ∀ lat1 lon1 lat2 lon2,
            haversine_distance math lat1 lon1 lat2 lon2
            = haversine_distance math lat2 lon2 lat1 lon1).
  { intros lat1 lon1 lat2 lon2. unfold haversine_distance. now rewrite Ha. }
  split; [exact Hsym|].
  intros iata1 iata2 unit. unfold get_distance.
  destruct (get_airport str iata1) as [a1|], (get_airport str iata2) as [a2|];
    try reflexivity.
  now rewrite (Hsym (latitude a1)).
Qed.

End DistanceClaims.

(** C7 on two codes of the catalog, one in lower case, and the unit "KM". *)
Lemma get_distance_spec_witness :
  ∃ miles, sample_get_distance "atl" "JFK" "KM"
           = PyExc.Return (Some (mul miles f1_60934)).
Proof.
  destruct (AirportReference.get_airport ascii_str "atl") as [a1|] eqn:E1;
    [|vm_compute in E1; discriminate].
  destruct (AirportReference.get_airport ascii_str "JFK") as [a2|] eqn:E2;
    [|vm_compute in E2; discriminate].
  destruct (AirportReference.haversine_distance sample_math
              (AirportReference.latitude a1) (AirportReference.longitude a1)
              (AirportReference.latitude a2) (AirportReference.longitude a2))
    as [miles|e] eqn:Ed.
  2:{ vm_compute in E1, E2. injection E1 as <-. injection E2 as <-.
      vm_compute in Ed. discriminate. }
  exists miles. unfold sample_get_distance.
  rewrite (proj1 (proj2 (get_distance_spec ascii_str sample_math "atl" "JFK" "KM")
                        a1 a2 E1 E2)); [now rewrite Ed|].
  right. reflexivity.
Defined.

(** C8 on the sample math module: its sine is the identity away from the
    infinities, which is odd, and its square is [x * x], which is even. *)
Lemma haversine_distance_symmetric_witness :
  sample_get_distance "ATL" "JFK" "miles" = sample_get_distance "JFK" "ATL" "miles".
Proof.
  apply (haversine_distance_symmetric ascii_str sample_math).
  - intros [s|s| |s m e]; reflexivity.
  - intros s. unfold sample_math, sample_square; simpl.
    rewrite mul_opp_opp. now destruct s.
Defined.

(** *** C9 *)

Section DomainClaim.

Import PyExc AirportReference ReferenceProps.

Variable math : MathModule.


End DomainClaim.



(** *** C10 *)

(** C10.  The generator reads a distance of zero as it reads an unresolved
    code.  Replacing every zero answer of [get_distance] by [None] changes
    neither the result of the minimum-hub-distance search nor the state of
    the generation (its flights and its processed pairs).  A hub with a leg of
    distance zero is left out of the search, and a pair at distance zero gets
    no flight and no mark in any of the three passes. *)
Theorem zero_distance_as_unresolved
    (get_distance : string -> string -> option float) :
  (∀ origin destination hubs,
     calculate_minimum_distance_through_hubs
       (zero_as_missing get_distance) origin destination hubs
     = calculate_minimum_distance_through_hubs
         get_distance origin destination hubs)
  ∧ generate_flight_network_state (zero_as_missing get_distance)
    = generate_flight_network_state get_distance
  ∧ (∀ origin destination acc hub x,
       get_distance origin hub = Some x ∨ get_distance hub destination = Some x ->
       eqb x zero = true ->
       hub_step get_distance origin destination acc hub = acc)
  ∧ (∀ hubs a b st x,
       get_distance a b = Some x ->
       eqb x zero = true ->
       hub_pair_step get_distance a st b = st
       ∧ spoke_step get_distance a st b = st
       ∧ direct_pair_step get_distance hubs a st b = st).
Proof.
  split; [|split; [|split]].
  - intros o d hubs. apply calculate_minimum_distance_through_hubs_zero.
  - apply generate_zero.
  - intros o d acc hub x Hx Hz. unfold hub_step.
    case_bool_decide; [reflexivity|].
    destruct (get_distance o hub) as [d1|], (get_distance hub d) as [d2|];
      try reflexivity.
    destruct Hx as [[= ->]|[= ->]]; unfold truth; rewrite Hz; simpl;
      rewrite ?andb_false_r; reflexivity.
  - intros hubs a b st x Hx Hz.
    unfold hub_pair_step, spoke_step, direct_pair_step.
    rewrite Hx. unfold truth. rewrite Hz. simpl.
    repeat split; try reflexivity.
    repeat case_bool_decide; simpl; reflexivity.
Qed.

(** C10 on a table with distances of zero: the hub DFW is left out of the
    search for a flight out of AUS, and the pair JFK-LGA leaves the state as
    it is. *)
Lemma zero_distance_as_unresolved_witness :
  hub_step colocated_distance "AUS" "SEA" (inf, None) "DFW" = (inf, None)
  ∧ direct_pair_step colocated_distance MAJOR_HUBS "JFK" (mkState [] ∅) "LGA"
    = mkState [] ∅.
Proof.
  destruct (zero_distance_as_unresolved colocated_distance) as (_ & _ & H3 & H4).
  split.
  - apply (H3 "AUS" "SEA" (inf, None) "DFW" zero); [left|]; reflexivity.
  - apply (H4 MAJOR_HUBS "JFK" "LGA" (mkState [] ∅) zero); reflexivity.
Defined.

(** ** Facts for the further properties *)

Module TurnFacts.

Lemma endpoints_turn_flights t x f :
  f ∈ turn_flights t x -> endpoints f ∈ both_orders t.
Proof.
  destruct t as [a b|a b|a b]; simpl; intros Hf;
    repeat (apply elem_of_cons in Hf as [->|Hf]);
    try (now apply elem_of_nil in Hf);
    unfold endpoints; simpl; rewrite !elem_of_cons; tauto.
Qed.

Lemma connects_both_orders t f a b :
  endpoints f ∈ both_orders t -> connects f a b -> (a, b) ∈ both_orders t.
Proof.
  unfold endpoints, connects.
  destruct t as [u v|u v|u v]; simpl; rewrite !elem_of_cons;
    intros [[= <- <-]|[[= <- <-]|H]] [[<- <-]|[<- <-]];
    try (now apply elem_of_nil in H); tauto.
Qed.

Section Turns.

Variable get_distance : string -> string -> option float.
Variable hubs : list string.

Local Abbreviation run := (run_turn get_distance hubs).

Lemma generate_turns airports :
  generate get_distance hubs airports
  = fold_left run (turns hubs airports) (mkState [] ∅).
Proof.
  rewrite generate_fold. unfold turns.
  rewrite !fold_left_app, !fold_left_map_pair. reflexivity.
Qed.

(** What a turn does: nothing, or it fires and appends its flights and
    marks its pair in both orders. *)
Lemma run_turn_cases st t :
  run st t = st
  ∨ ∃ x, fires get_distance hubs t x
       ∧ flights (run st t) = flights st ++ turn_flights t x
       ∧ (∀ p, p ∈ processed_pairs (run st t)
               ↔ p ∈ both_orders t ∨ p ∈ processed_pairs st).
Proof.
  destruct t as [a b|a b|a b]; simpl.
  - destruct (hub_pair_step_cases get_distance a st b)
      as [->|(x & ? & ? & ? & ->)]; [now left|].
    right. exists x. split; [done|]. split; [reflexivity|].
    intros p. rewrite processed_add_one_way, !elem_of_union, !elem_of_singleton,
      !elem_of_cons, elem_of_nil. tauto.
  - destruct (spoke_step_cases get_distance a st b)
      as [->|(x & ? & ? & ? & ->)]; [now left|].
    right. exists x. split; [done|]. split; [apply flights_add_both_ways|].
    intros p. rewrite processed_add_both_ways, !elem_of_union, !elem_of_singleton,
      !elem_of_cons, elem_of_nil. tauto.
  - destruct (direct_pair_step_cases get_distance hubs a st b)
      as [->|(x & ? & ? & ? & ? & ? & ? & ? & ->)]; [now left|].
    right. exists x. split; [done|]. split; [apply flights_add_both_ways|].
    intros p. rewrite processed_add_both_ways, !elem_of_union, !elem_of_singleton,
      !elem_of_cons, elem_of_nil. tauto.
Qed.

(** A turn that fires appends its flights, unless it is a turn of the third
    loop whose pair is already marked. *)
Lemma run_turn_fires st t x :
  fires get_distance hubs t x ->
  (∀ p, p ∈ both_orders t -> p ∉ processed_pairs st) ->
  flights (run st t) = flights st ++ turn_flights t x.
Proof.
  destruct t as [a b|a b|a b]; simpl.
  - intros (E & Ht & Hx) _. unfold hub_pair_step. rewrite E, Ht, Hx. reflexivity.
  - intros (E & Ht & Hx) _. unfold spoke_step. rewrite E, Ht, Hx. simpl.
    now rewrite <- app_assoc.
  - intros (Ha & Hb & (E & Ht & Hx) & Hs) Hp. unfold direct_pair_step.
    rewrite bool_decide_eq_false_2 by (apply Hp; left).
    rewrite (bool_decide_eq_false_2 _ Ha), (bool_decide_eq_false_2 _ Hb).
    simpl. rewrite E, Ht, Hx, Hs. simpl. now rewrite <- app_assoc.
Qed.

Lemma run_turn_grows st t : flights st `prefix_of` flights (run st t).
Proof.
  destruct (run_turn_cases st t) as [->|(x & _ & -> & _)]; [reflexivity|].
  now apply prefix_app_r.
Qed.

Lemma run_turns_grow l st : flights st `prefix_of` flights (fold_left run l st).
Proof. apply fold_left_grows. intros. apply run_turn_grows. Qed.

(** Every flight added by a list of turns is appended by a turn of the
    list that fires. *)
Lemma run_turns_sound l : ∀ st f,
  f ∈ flights (fold_left run l st) ->
  f ∈ flights st
  ∨ ∃ t x, t ∈ l ∧ fires get_distance hubs t x ∧ f ∈ turn_flights t x.
Proof.
  induction l as [|t l IH]; simpl; intros st f Hf; [now left|].
  apply IH in Hf as [Hf|(t' & x & Ht' & Hx & Hf)].
  - destruct (run_turn_cases st t) as [E|(x & Hx & E & _)].
    + rewrite E in Hf. now left.
    + rewrite E in Hf. apply elem_of_app in Hf as [Hf|Hf]; [now left|].
      right. exists t, x. split; [left|done].
  - right. exists t', x. split; [now right|done].
Qed.

Lemma run_turn_marked st t : marked_iff_joined st -> marked_iff_joined (run st t).
Proof.
  intros Hst. destruct (run_turn_cases st t) as [->|(x & _ & Ef & Ep)];
    [exact Hst|].
  intros a b. rewrite Ep, Ef, (Hst a b). split.
  - intros [Hp|(f & Hf & Hc)].
    + destruct t as [u v|u v|u v]; simpl in *;
        apply elem_of_cons in Hp as [[= -> ->]|Hp];
        try (apply list_elem_of_singleton in Hp as [= -> ->]);
        eexists; (split; [apply elem_of_app; right; left|]);
        unfold connects; simpl; tauto.
    + exists f. split; [apply elem_of_app; now left|exact Hc].
  - intros (f & [Hf|Hf]%elem_of_app & Hc); [right; eauto|left].
    destruct t as [u v|u v|u v]; simpl in *;
      repeat (apply elem_of_cons in Hf as [->|Hf]);
      try (now apply elem_of_nil in Hf);
      apply connects_direct_flight in Hc as [[-> ->]|[-> ->]];
      rewrite !elem_of_cons; tauto.
Qed.

Lemma run_turns_marked l st :
  marked_iff_joined st -> marked_iff_joined (fold_left run l st).
Proof.
  apply fold_left_invariant. intros s t _. apply run_turn_marked.
Qed.

Lemma init_marked : marked_iff_joined (mkState [] ∅).
Proof. intros a b. split; [set_solver|]. intros (f & Hf & _). set_solver. Qed.

(** A turn that fires can mark its pair. *)
Lemma fires_turn_pairs t x :
  fires get_distance hubs t x -> turn_pairs hubs t = both_orders t.
Proof.
  destruct t as [a b|a b|a b]; simpl; try reflexivity.
  intros (Ha & Hb & _).
  now rewrite (bool_decide_eq_false_2 _ Ha), (bool_decide_eq_false_2 _ Hb).
Qed.

(** Completeness: in a list of turns in which no pair can be marked twice,
    every turn that fires appends its flights. *)
Lemma run_turns_complete l t x f :
  NoDup (flat_map (turn_pairs hubs) l) ->
  t ∈ l -> fires get_distance hubs t x -> f ∈ turn_flights t x ->
  f ∈ flights (fold_left run l (mkState [] ∅)).
Proof.
  intros Hnd Ht Hx Hf.
  apply list_elem_of_split in Ht as (l1 & l2 & ->).
  rewrite fold_left_app. simpl.
  eapply elem_of_prefix; [|apply run_turns_grow].
  rewrite (run_turn_fires _ _ x Hx); [apply elem_of_app; now right|].
  intros [a b] Hp Hin.
  apply (run_turns_marked l1 _ init_marked) in Hin as (g & Hg & Hc).
  apply run_turns_sound in Hg as [Hg|(t' & x' & Ht' & Hx' & Hg)];
    [now apply elem_of_nil in Hg|].
  rewrite flat_map_app in Hnd. apply NoDup_app in Hnd as (_ & Hd & _).
  apply (Hd (a, b)).
  - apply list_elem_of_In, in_flat_map. exists t'.
    split; [now apply list_elem_of_In|].
    rewrite (fires_turn_pairs _ _ Hx'). apply list_elem_of_In.
    eapply connects_both_orders; [apply (endpoints_turn_flights _ x'), Hg|exact Hc].
  - simpl. apply elem_of_app. left. now rewrite (fires_turn_pairs _ _ Hx).
Qed.

(** The directed edges of the flights added by a list of turns are a
    sublist of the pairs that the turns can mark. *)
Lemma run_turns_edges l : ∀ st, ∃ added,
  flights (fold_left run l st) = flights st ++ added
  ∧ map endpoints added `sublist_of` flat_map (turn_pairs hubs) l.
Proof.
  induction l as [|t l IH]; simpl; intros st.
  { exists []. now rewrite app_nil_r. }
  destruct (IH (run st t)) as (added & E & Hs).
  destruct (run_turn_cases st t) as [Et|(x & Hx & Ef & _)].
  - rewrite Et in E |- *. exists added. split; [exact E|].
    now apply sublist_inserts_l.
  - exists (turn_flights t x ++ added). split.
    + now rewrite E, Ef, <- app_assoc.
    + rewrite map_app. apply sublist_app; [|exact Hs].
      rewrite (fires_turn_pairs _ _ Hx).
      destruct t as [a b|a b|a b]; simpl; [|reflexivity..].
      apply sublist_skip. apply sublist_cons. constructor.
Qed.

(** [turn_distance] decides whether a turn fires. *)
Lemma turn_distance_fires t x :
  turn_distance get_distance hubs t = Some x ↔ fires get_distance hubs t x.
Proof.
  destruct t as [a b|a b|a b]; simpl; unfold accepted.
  - destruct (get_distance a b) as [y|]; [|split; [discriminate|now intros [? _]]].
    destruct (truth y) eqn:Ht, (geb y f150) eqn:Hy; simpl;
      (split; [intros [= <-]; done|intros ([= <-] & ? & ?); congruence]).
  - destruct (get_distance a b) as [y|]; [|split; [discriminate|now intros [? _]]].
    destruct (truth y) eqn:Ht, (geb y f150) eqn:Hy; simpl;
      (split; [intros [= <-]; done|intros ([= <-] & ? & ?); congruence]).
  - case_bool_decide as Ha; simpl; [split; [discriminate|tauto]|].
    case_bool_decide as Hb; simpl; [split; [discriminate|tauto]|].
    destruct (get_distance a b) as [y|];
      [|split; [discriminate|now intros (_ & _ & [? _] & _)]].
    destruct (truth y) eqn:Ht, (geb y f150) eqn:Hy,
             (should_create_direct_flight get_distance a b y hubs) eqn:Hs; simpl;
      (split; [intros [= <-]; done
              |intros (_ & _ & ([= <-] & ? & ?) & ?); congruence]).
Qed.

Lemma run_turn_output st t :
  (∀ p, p ∈ turn_pairs hubs t -> p ∉ processed_pairs st) ->
  flights (run st t) = flights st ++ turn_output get_distance hubs t
  ∧ (∀ p, p ∈ processed_pairs (run st t) ->
          p ∈ turn_pairs hubs t ∨ p ∈ processed_pairs st).
Proof.
  intros Hp. unfold turn_output.
  destruct (turn_distance get_distance hubs t) as [x|] eqn:E.
  - apply turn_distance_fires in E. split.
    + apply run_turn_fires; [exact E|].
      rewrite <- (fires_turn_pairs t x E). exact Hp.
    + intros p Hin.
      destruct (run_turn_cases st t) as [Es|(y & Hy & _ & Hm)].
      * rewrite Es in Hin. now right.
      * apply Hm in Hin. now rewrite (fires_turn_pairs t y Hy).
  - destruct (run_turn_cases st t) as [->|(y & Hy & _)].
    + rewrite app_nil_r. split; [reflexivity|]. intros p Hin. now right.
    + apply turn_distance_fires in Hy. congruence.
Qed.

(** In a list of turns in which no pair can be marked twice, the set of
    processed pairs never skips a turn: the flights are those that the
    turns put out one by one. *)
Lemma run_turns_output l : ∀ st,
  NoDup (flat_map (turn_pairs hubs) l) ->
  (∀ p, p ∈ flat_map (turn_pairs hubs) l -> p ∉ processed_pairs st) ->
  flights (fold_left run l st)
  = flights st ++ flat_map (turn_output get_distance hubs) l.
Proof.
  induction l as [|t l IH]; simpl; intros st Hnd Hp; [now rewrite app_nil_r|].
  apply NoDup_app in Hnd as (_ & Hd & Hnd).
  destruct (run_turn_output st t) as [Ef Em].
  { intros p Hin. apply Hp, elem_of_app. now left. }
  rewrite IH, Ef, <- app_assoc; [reflexivity|exact Hnd|].
  intros p Hin Hm. apply Em in Hm as [Hm|Hm].
  - exact (Hd p Hm Hin).
  - apply (Hp p); [apply elem_of_app; now right|exact Hm].
Qed.

(** The turns of each loop. *)
Lemma elem_of_turns airports t :
  t ∈ turns hubs airports
  ↔ match t with
    | HubTurn a b => (a, b) ∈ ordered_pairs hubs
    | SpokeTurn a b => a ∈ airports ∧ (a ∉ hubs) ∧ b ∈ hubs
    | DirectTurn a b => (a, b) ∈ ordered_pairs airports
    end.
Proof.
  unfold turns. rewrite !elem_of_app, !list_elem_of_In, !in_map_iff.
  destruct t as [a b|a b|a b]; rewrite <- ?elem_of_spoke_pairs, ?list_elem_of_In.
  - split.
    + intros [([u v] & [= <- <-] & H)|[(p & [=] & _)|(p & [=] & _)]]. exact H.
    + intros H. left. now exists (a, b).
  - split.
    + intros [(p & [=] & _)|[([u v] & [= <- <-] & H)|(p & [=] & _)]]. exact H.
    + intros H. right. left. now exists (a, b).
  - split.
    + intros [(p & [=] & _)|[(p & [=] & _)|([u v] & [= <- <-] & H)]]. exact H.
    + intros H. right. right. now exists (a, b).
Qed.

End Turns.

(** No pair of codes, in either order, can be marked by two turns of the
    generation, and no turn is about a code and itself. *)
Lemma turn_pairs_distinct :
  NoDup (flat_map (turn_pairs MAJOR_HUBS) (turns MAJOR_HUBS US_AIRPORTS)).
Proof. compute_done. Qed.

Section Network.

Variable get_distance : string -> string -> option float.

Lemma generate_flight_network_turns :
  generate_flight_network get_distance
  = flights (fold_left (run_turn get_distance MAJOR_HUBS)
               (turns MAJOR_HUBS US_AIRPORTS) (mkState [] ∅)).
Proof.
  unfold generate_flight_network, generate_flight_network_state.
  now rewrite generate_turns.
Qed.

Lemma generate_flight_network_output :
  generate_flight_network get_distance
  = flat_map (turn_output get_distance MAJOR_HUBS) (turns MAJOR_HUBS US_AIRPORTS).
Proof.
  rewrite generate_flight_network_turns.
  rewrite run_turns_output; [reflexivity|apply turn_pairs_distinct|].
  intros p _ Hp. now apply elem_of_empty in Hp.
Qed.

Lemma generate_flight_network_produced f :
  f ∈ generate_flight_network get_distance
  ↔ produced get_distance MAJOR_HUBS US_AIRPORTS f.
Proof.
  rewrite generate_flight_network_turns. split.
  - intros [H|H]%run_turns_sound; [now apply elem_of_nil in H|exact H].
  - intros (t & x & Ht & Hx & Hf).
    eapply run_turns_complete; eauto using turn_pairs_distinct.
Qed.

Lemma generate_flight_network_edges :
  map endpoints (generate_flight_network get_distance)
  `sublist_of` flat_map (turn_pairs MAJOR_HUBS) (turns MAJOR_HUBS US_AIRPORTS).
Proof.
  rewrite generate_flight_network_turns.
  destruct (run_turns_edges get_distance MAJOR_HUBS
              (turns MAJOR_HUBS US_AIRPORTS) (mkState [] ∅)) as (added & -> & H).
  exact H.
Qed.

Lemma generate_flight_network_NoDup :
  NoDup (map endpoints (generate_flight_network get_distance)).
Proof.
  eapply sublist_NoDup; [apply turn_pairs_distinct|].
  apply generate_flight_network_edges.
Qed.

Lemma generate_flight_network_no_loop f :
  f ∈ generate_flight_network get_distance -> origin f ≠ destination f.
Proof.
  intros (t & x & Ht & Hx & Hf)%generate_flight_network_produced Heq.
  assert (Hnd : NoDup (turn_pairs MAJOR_HUBS t)).
  { pose proof turn_pairs_distinct as H.
    apply list_elem_of_split in Ht as (l1 & l2 & E).
    rewrite E, flat_map_app in H. simpl in H.
    apply NoDup_app in H as (_ & _ & H). now apply NoDup_app in H as (H & _). }
  rewrite (fires_turn_pairs get_distance MAJOR_HUBS t x Hx) in Hnd.
  apply endpoints_turn_flights in Hf. unfold endpoints in Hf.
  rewrite Heq in Hf.
  destruct t as [a b|a b|a b]; simpl in *;
    apply NoDup_cons in Hnd as (Hab & _); apply Hab;
    apply elem_of_cons in Hf as [[= <- <-]|Hf];
    try (apply list_elem_of_singleton in Hf as [= <- <-]); left.
Qed.

End Network.

End TurnFacts.

Module HubMinimumFacts.

Lemma ltb_irrefl x : ltb x x = false.
Proof.
  unfold ltb, SFltb. pose proof (compare_antisym x x) as H.
  destruct (SFcompare x x) as [[]|]; simpl in *; congruence.
Qed.

Lemma leb_refl x : is_nan x = false -> leb x x = true.
Proof. intros H. apply not_ltb_leb; auto using ltb_irrefl. Qed.

Lemma ltb_not_nan x y : ltb x y = true -> is_nan x = false.
Proof. now destruct x. Qed.

Section Search.

Variable get_distance : string -> string -> option float.
Variables origin destination : string.

Local Abbreviation step := (hub_step get_distance origin destination).

(** What a turn of the search does: it keeps the minimum, or the hub has a
    route with a smaller total, which becomes the minimum. *)
Lemma hub_step_cases acc hub :
  step acc hub = acc
  ∨ ∃ total, hub_route get_distance origin destination hub total
           ∧ ltb total acc.1 = true ∧ step acc hub = (total, Some hub).
Proof.
  unfold hub_step. case_bool_decide as Hh; [now left|].
  destruct (get_distance origin hub) as [d1|] eqn:E1; [|now left].
  destruct (get_distance hub destination) as [d2|] eqn:E2; [|now left].
  destruct (truth d1) eqn:T1, (truth d2) eqn:T2; simpl; try now left.
  destruct (ltb (add d1 d2) acc.1) eqn:Hlt; [|now left].
  right. exists (add d1 d2). split; [|done].
  split; [tauto|]. split; [tauto|]. exists d1, d2. done.
Qed.

Lemma hub_step_route acc hub total :
  hub_route get_distance origin destination hub total ->
  step acc hub = if ltb total acc.1 then (total, Some hub) else acc.
Proof.
  intros (Ho & Hd & d1 & d2 & E1 & E2 & T1 & T2 & ->). unfold hub_step.
  rewrite bool_decide_eq_false_2 by tauto. now rewrite E1, E2, T1, T2.
Qed.

Lemma hub_search l : ∀ acc,
  is_nan acc.1 = false ->
  is_nan (fold_left step l acc).1 = false
  ∧ leb (fold_left step l acc).1 acc.1 = true
  ∧ (fold_left step l acc = acc
     ∨ ∃ hub, hub ∈ l ∧ (fold_left step l acc).2 = Some hub
            ∧ hub_route get_distance origin destination hub
                (fold_left step l acc).1)
  ∧ (∀ hub total, hub ∈ l ->
       hub_route get_distance origin destination hub total ->
       is_nan total = false -> leb (fold_left step l acc).1 total = true).
Proof.
  induction l as [|h l IH]; simpl; intros acc Hacc.
  { split; [exact Hacc|]. split; [now apply leb_refl|]. split; [now left|].
    intros hub total Hin. now apply elem_of_nil in Hin. }
  assert (Hs : is_nan (step acc h).1 = false
               ∧ leb (step acc h).1 acc.1 = true).
  { destruct (hub_step_cases acc h) as [->|(t & _ & Hlt & ->)];
      [split; [exact Hacc|now apply leb_refl]|].
    split; [exact (ltb_not_nan _ _ Hlt)|now apply ltb_leb]. }
  destruct Hs as [Hn Hle].
  destruct (IH (step acc h) Hn) as (Rn & Rle & Rb & Rm).
  split; [exact Rn|]. split; [now apply (leb_trans _ _ _ Rle)|]. split.
  - destruct Rb as [E|(hub & Hin & Hb & Hr)].
    + rewrite E. destruct (hub_step_cases acc h) as [->|(t & Hr & _ & ->)];
        [now left|].
      right. exists h. split; [left|]. split; [reflexivity|exact Hr].
    + right. exists hub. split; [now right|]. split; assumption.
  - intros hub total [->|Hin]%elem_of_cons Hr Ht; [|now apply (Rm hub total)].
    apply (leb_trans _ _ _ Rle).
    rewrite (hub_step_route acc h total Hr).
    destruct (ltb total acc.1) eqn:Hlt; simpl; [now apply leb_refl|].
    now apply not_ltb_leb.
Qed.

End Search.

End HubMinimumFacts.

Module PlannerFacts.

(** The first flight of [legs] is a flight of the list on that edge. *)
Lemma legs_head a b fl f l :
  legs a b fl = f :: l -> f ∈ fl ∧ goes f a b.
Proof. intros E. apply elem_of_legs. rewrite E. left. Qed.

Lemma direct_option_backed hubs o d fl :
  Forall (backed_by hubs fl o d) (direct_option o d fl).
Proof.
  unfold direct_option.
  destruct (List.filter is_direct (legs o d fl)) as [|f l] eqn:E; constructor;
    [|constructor].
  assert (Hin : In f (List.filter is_direct (legs o d fl)))
    by (rewrite E; now left).
  apply filter_In in Hin as [Hin Hd].
  apply list_elem_of_In, elem_of_legs in Hin as [Hin [Ho Hdst]].
  left. exists f. unfold direct_route. rewrite Ho, Hdst. done.
Qed.

Lemma hub_option_backed hubs o d fl hub :
  hub ∈ hubs -> Forall (backed_by hubs fl o d) (hub_option o d fl hub).
Proof.
  intros Hh. unfold hub_option. case_bool_decide as Hn; [constructor|].
  destruct (legs o hub fl) as [|leg1 l1] eqn:E1; [constructor|].
  destruct (legs hub d fl) as [|leg2 l2] eqn:E2; constructor; [|constructor].
  apply legs_head in E1 as (H1 & Ho1 & Hd1), E2 as (H2 & Ho2 & Hd2).
  right. exists leg1, leg2, hub. unfold hub_connection, goes.
  rewrite Ho1, Ho2, Hd2. intuition.
Qed.

Lemma route_options_backed hubs o d fl :
  Forall (backed_by hubs fl o d) (route_options hubs o d fl).
Proof.
  unfold route_options. rewrite sort_by_distance_perm.
  apply Forall_app. split; [apply direct_option_backed|].
  apply Forall_forall. intros opt Hin.
  apply list_elem_of_In, in_flat_map in Hin as (hub & Hh & Hin).
  apply list_elem_of_In in Hh, Hin.
  pose proof (hub_option_backed hubs o d fl hub Hh) as H.
  rewrite Forall_forall in H. now apply H.
Qed.

Lemma direct_option_length o d fl : (length (direct_option o d fl) ≤ 1)%nat.
Proof.
  unfold direct_option. destruct (List.filter _ _); simpl; lia.
Qed.

Lemma hub_options_length o d fl hubs :
  (length (flat_map (hub_option o d fl) hubs) ≤ length hubs)%nat.
Proof.
  induction hubs as [|h hubs IH]; simpl; [lia|].
  rewrite length_app. unfold hub_option at 1.
  case_bool_decide; simpl; [lia|].
  destruct (legs o h fl), (legs h d fl); simpl; lia.
Qed.

(** On a list without two flights on the same edge, [legs] finds the
    flight of an edge alone. *)
Lemma legs_none a b fl :
  (a, b) ∉ map endpoints fl -> legs a b fl = [].
Proof.
  intros H. apply legs_nil. intros (f & Hf & Ho & Hd). apply H.
  apply list_elem_of_In, in_map_iff. exists f.
  split; [unfold endpoints; now rewrite Ho, Hd|now apply list_elem_of_In].
Qed.

Lemma legs_unique fl : ∀ f,
  NoDup (map endpoints fl) -> f ∈ fl ->
  legs (origin f) (destination f) fl = [f].
Proof.
  induction fl as [|g fl IH]; intros f Hnd Hf; [now apply elem_of_nil in Hf|].
  simpl in Hnd. apply NoDup_cons in Hnd as [Hg Hnd].
  apply elem_of_cons in Hf as [->|Hf].
  - unfold legs. simpl. rewrite !bool_decide_eq_true_2 by reflexivity. simpl.
    f_equal. now apply legs_none.
  - unfold legs. simpl.
    destruct (bool_decide (origin g = origin f)
              && bool_decide (destination g = destination f)) eqn:E.
    + apply andb_true_iff in E as [Eo%bool_decide_eq_true Ed%bool_decide_eq_true].
      exfalso. apply Hg. unfold endpoints at 1. rewrite Eo, Ed.
      apply list_elem_of_In, in_map_iff. exists f.
      split; [reflexivity|now apply list_elem_of_In].
    + now apply IH.
Qed.

Lemma elem_of_route_options hubs o d fl opt :
  opt ∈ route_options hubs o d fl
  ↔ opt ∈ direct_option o d fl ∨ ∃ hub, hub ∈ hubs ∧ opt ∈ hub_option o d fl hub.
Proof.
  unfold route_options. rewrite sort_by_distance_perm, elem_of_app.
  split; (intros [H|H]; [now left|right]).
  - apply list_elem_of_In, in_flat_map in H as (hub & Hh & H).
    exists hub. now rewrite !list_elem_of_In.
  - destruct H as (hub & Hh & H). apply list_elem_of_In, in_flat_map.
    exists hub. now rewrite <- !list_elem_of_In.
Qed.

End PlannerFacts.

Module StatisticsFacts.

Lemma string_ltb_antisym (s t : string) :
  String.ltb s t = true -> String.ltb t s = false.
Proof.
  unfold String.ltb. rewrite (String.compare_antisym s t).
  destruct (String.compare t s); simpl; congruence.
Qed.

Lemma string_ltb_total (s t : string) :
  String.ltb s t = false -> String.ltb t s = false -> s = t.
Proof.
  unfold String.ltb. rewrite (String.compare_antisym t s).
  destruct (String.compare s t) eqn:E; simpl; try congruence.
  intros _ _. now apply String.compare_eq_iff.
Qed.

(** The sorted pair of a flight does not depend on its direction. *)
Lemma sorted_pair_reverse f : sorted_pair (reverse_flight f) = sorted_pair f.
Proof.
  unfold sorted_pair, reverse_flight. simpl.
  destruct (String.ltb (origin f) (destination f)) eqn:E1,
           (String.ltb (destination f) (origin f)) eqn:E2; try reflexivity.
  - apply string_ltb_antisym in E1. congruence.
  - now rewrite (string_ltb_total _ _ E1 E2).
Qed.

(** The edge of a flight is its sorted pair, in one order or the other. *)
Lemma endpoints_sorted_pair f :
  endpoints f = sorted_pair f ∨ endpoints f = ((sorted_pair f).2, (sorted_pair f).1).
Proof.
  unfold endpoints, sorted_pair.
  destruct (String.ltb (destination f) (origin f)); simpl; auto.
Qed.

Lemma elem_of_fold_pairs fl : ∀ (acc : gset (string * string)) p,
  p ∈ fold_left (fun pairs flight => {[ sorted_pair flight ]} ∪ pairs) fl acc
  ↔ p ∈ acc ∨ ∃ f, f ∈ fl ∧ sorted_pair f = p.
Proof.
  induction fl as [|g fl IH]; simpl; intros acc p.
  - split; [now left|]. intros [H|(f & Hf & _)]; [exact H|].
    now apply elem_of_nil in Hf.
  - rewrite IH, elem_of_union, elem_of_singleton. split.
    + intros [[->|H]|(f & Hf & E)].
      * right. exists g. split; [left|reflexivity].
      * now left.
      * right. exists f. split; [now right|exact E].
    + intros [H|(f & [->|Hf]%elem_of_cons & E)].
      * left. now right.
      * left. now left.
      * right. now exists f.
Qed.

Lemma elem_of_unique_pairs fl p :
  p ∈ unique_pairs fl ↔ ∃ f, f ∈ fl ∧ sorted_pair f = p.
Proof.
  unfold unique_pairs. rewrite elem_of_fold_pairs. split; [|now right].
  intros [H|H]; [|exact H]. now apply elem_of_empty in H.
Qed.

Lemma size_fold_pairs fl : ∀ acc : gset (string * string),
  (size (fold_left (fun pairs flight => {[ sorted_pair flight ]} ∪ pairs) fl acc)
   ≤ size acc + length fl)%nat.
Proof.
  induction fl as [|g fl IH]; simpl; intros acc; [lia|].
  assert (Hs : (size ({[sorted_pair g]} ∪ acc) ≤ 1 + size acc)%nat).
  { rewrite size_union_alt, size_singleton.
    assert (Hsub : acc ∖ {[sorted_pair g]} ⊆ acc)
      by (intros p [Hp _]%elem_of_difference; exact Hp).
    apply subseteq_size in Hsub. lia. }
  etransitivity; [apply IH|]. lia.
Qed.

Lemma size_unique_pairs_le fl : (size (unique_pairs fl) ≤ length fl)%nat.
Proof.
  pose proof (size_fold_pairs fl ∅) as H. rewrite size_empty in H. exact H.
Qed.

Lemma size_unique_pairs_zero fl : size (unique_pairs fl) = 0%nat ↔ fl = [].
Proof.
  split; [|now intros ->].
  intros H%size_empty_iff. destruct fl as [|f fl]; [reflexivity|].
  exfalso. apply (not_elem_of_empty (C := gset (string * string)) (sorted_pair f)).
  rewrite <- H. apply elem_of_unique_pairs. exists f. split; [left|reflexivity].
Qed.

Lemma unique_pairs_reverse fl :
  unique_pairs (map reverse_flight fl) = unique_pairs fl.
Proof.
  apply set_eq. intros p. rewrite !elem_of_unique_pairs. split.
  - intros (f & Hf & E). apply list_elem_of_In, in_map_iff in Hf as (g & <- & Hg).
    exists g. rewrite sorted_pair_reverse in E.
    split; [now apply list_elem_of_In|exact E].
  - intros (f & Hf & E). exists (reverse_flight f).
    split; [|now rewrite sorted_pair_reverse].
    apply list_elem_of_In, in_map. now apply list_elem_of_In.
Qed.

Lemma unique_pairs_app fl1 fl2 :
  unique_pairs (fl1 ++ fl2) = unique_pairs fl1 ∪ unique_pairs fl2.
Proof.
  apply set_eq. intros p.
  rewrite elem_of_union, !elem_of_unique_pairs. split.
  - intros (f & [Hf|Hf]%elem_of_app & E); [left|right]; now exists f.
  - intros [(f & Hf & E)|(f & Hf & E)]; exists f; rewrite elem_of_app; tauto.
Qed.

(** A list with no two flights on the same edge has at most two flights
    for each unordered pair. *)
Lemma length_le_unique_pairs fl :
  NoDup (map endpoints fl) -> (length fl ≤ 2 * size (unique_pairs fl))%nat.
Proof.
  intros Hnd.
  set (both := fun p : string * string => [p; (p.2, p.1)]).
  assert (Hl : ∀ l : list (string * string),
            length (flat_map both l) = (2 * length l)%nat).
  { induction l as [|p l IH]; simpl; [reflexivity|]. rewrite IH. lia. }
  rewrite <- (length_map endpoints fl).
  change (size (unique_pairs fl)) with (length (elements (unique_pairs fl))).
  rewrite <- Hl.
  apply submseteq_length, NoDup_submseteq; [exact Hnd|].
  intros p Hp. apply list_elem_of_In, in_map_iff in Hp as (f & <- & Hf).
  apply list_elem_of_In, in_flat_map. exists (sorted_pair f). split.
  - apply list_elem_of_In, elem_of_elements, elem_of_unique_pairs.
    exists f. split; [now apply list_elem_of_In|reflexivity].
  - unfold both. destruct (endpoints_sorted_pair f) as [-> | ->];
      [now left|right; now left].
Qed.

Lemma filter_length_le {A : Type} (p : A -> bool) (l : list A) :
  (length (List.filter p l) ≤ length l)%nat.
Proof. induction l as [|x l IH]; simpl; [lia|]. destruct (p x); simpl; lia. Qed.

Lemma filter_all {A : Type} (p : A -> bool) (l : list A) :
  Forall (fun x => p x = true) l -> List.filter p l = l.
Proof.
  induction 1 as [|x l Hx _ IH]; simpl; [reflexivity|]. now rewrite Hx, IH.
Qed.

End StatisticsFacts.

Module CatalogFacts.

Import PyStr AirportReference.

(** Every entry of the catalog is filed under its own code, which is ASCII
    text in upper case. *)
Lemma AIRPORTS_items_keys :
  Forall (fun entry => iata entry.2 = entry.1
                       ∧ is_ascii entry.1 = true
                       ∧ ascii_upper entry.1 = entry.1)
         AIRPORTS_items.
Proof. repeat (constructor; [repeat split; reflexivity|]). constructor. Qed.

Lemma AIRPORTS_codes : map fst AIRPORTS_items = FlightNetwork.US_AIRPORTS ++ ["CDG"].
Proof. reflexivity. Qed.

Lemma AIRPORTS_lookup key a :
  AIRPORTS !! key = Some a ->
  iata a = key ∧ is_ascii key = true ∧ ascii_upper key = key.
Proof.
  intros H%elem_of_list_to_map_2.
  pose proof AIRPORTS_items_keys as Hk. rewrite Forall_forall in Hk.
  exact (Hk (key, a) H).
Qed.

Lemma AIRPORTS_is_Some key :
  is_Some (AIRPORTS !! key) ↔ key ∈ FlightNetwork.US_AIRPORTS ++ ["CDG"].
Proof.
  rewrite <- AIRPORTS_codes, <- not_eq_None_Some.
  unfold AIRPORTS. rewrite <- not_elem_of_list_to_map.
  change (AIRPORTS_items.*1) with (map fst AIRPORTS_items).
  split; [|tauto]. intros H.
  destruct (decide (key ∈ map fst AIRPORTS_items)); tauto.
Qed.

(** [upper] leaves the codes of the catalog as they are. *)
Lemma str_upper_code (str : StrModule) key :
  key ∈ FlightNetwork.US_AIRPORTS ++ ["CDG"] -> str_upper str key = key.
Proof.
  intros [a Ha]%AIRPORTS_is_Some.
  destruct (AIRPORTS_lookup _ _ Ha) as (_ & Hascii & Hu).
  now rewrite (str_upper_ascii str key Hascii).
Qed.

Lemma get_airport_iata (str : StrModule) code a :
  get_airport str code = Some a ->
  iata a = str_upper str code ∧ get_airport str (iata a) = Some a.
Proof.
  unfold get_airport. intros H.
  destruct (AIRPORTS_lookup _ _ H) as (Hi & Hascii & Hu).
  split; [exact Hi|].
  now rewrite Hi, (str_upper_ascii str _ Hascii), Hu.
Qed.

(** The unit names of the program are in lower case already. *)
Lemma unit_is_km_names (str : StrModule) :
  unit_is_km str "miles" = false ∧ unit_is_km str "kilometers" = true.
Proof.
  unfold unit_is_km. now rewrite !str_lower_ascii by reflexivity.
Qed.

End CatalogFacts.

Module HaversineFacts.

(** The difference of a finite float and itself is [0.0]. *)
Lemma sub_diag x : is_finite x = true -> sub x x = zero.
Proof.
  destruct x as [[]|[]| |s m e]; try discriminate; try reflexivity.
  intros _. unfold sub, SFsub. now rewrite Z.sub_diag.
Qed.

(** A finite float multiplied by [0.0] is a zero. *)
Lemma mul_finite_zero x :
  is_finite x = true -> ∃ s, mul x zero = S754_zero s.
Proof. destruct x as [s|s| |s m e]; try discriminate; intros _; simpl; eauto. Qed.

End HaversineFacts.

(** ** Further properties of the program *)

Import TurnFacts HubMinimumFacts PlannerFacts StatisticsFacts.


(** X1.  For two hubs [hub1] before [hub2] in [MAJOR_HUBS] whose distance is
    resolved, non-zero and at least 150 miles, the flight from [hub1] to
    [hub2] with that distance is in the generated network. *)
Theorem hub_pair_forward_flight
    (get_distance : string -> string -> option float)
    (hub1 hub2 : string) (x : float) :
  (hub1, hub2) ∈ ordered_pairs MAJOR_HUBS ->
  get_distance hub1 hub2 = Some x -> truth x = true -> geb x f150 = true ->
  direct_flight hub1 hub2 x ∈ generate_flight_network get_distance.
Proof. apply generate_hub_flight. Qed.

(** X1 on the hubs ATL and DFW of the sample table. *)
Lemma hub_pair_forward_flight_witness :
  direct_flight "ATL" "DFW" f600 ∈ generate_flight_network sample_distance.
Proof.
  apply (hub_pair_forward_flight sample_distance "ATL" "DFW" f600);
    [compute_done|reflexivity|reflexivity|reflexivity].
Defined.

(** X2.  For an airport of [US_AIRPORTS] that is not a hub and a hub whose
    distance from it is resolved, non-zero and at least 150 miles, the
    generated network has the flight from the airport to the hub and the
    flight back, both with that distance. *)
Theorem spoke_flights_both_ways
    (get_distance : string -> string -> option float)
    (airport hub : string) (x : float) :
  airport ∈ US_AIRPORTS -> airport ∉ MAJOR_HUBS -> hub ∈ MAJOR_HUBS ->
  get_distance airport hub = Some x -> truth x = true -> geb x f150 = true ->
  direct_flight airport hub x ∈ generate_flight_network get_distance
  ∧ direct_flight hub airport x ∈ generate_flight_network get_distance.
Proof. apply generate_spoke_flights. Qed.

(** X2 on JFK and the hub ORD of the sample table. *)
Lemma spoke_flights_both_ways_witness :
  direct_flight "JFK" "ORD" f600 ∈ generate_flight_network sample_distance
  ∧ direct_flight "ORD" "JFK" f600 ∈ generate_flight_network sample_distance.
Proof.
  apply (spoke_flights_both_ways sample_distance "JFK" "ORD" f600);
    [compute_done|compute_done|compute_done|reflexivity|reflexivity|reflexivity].
Defined.

(** X3.  Every generated flight is direct and names no hub: connections
    through a hub are computed by [get_route_options], not stored. *)
Theorem generated_flights_are_direct
    (get_distance : string -> string -> option float) :
  Forall (fun f => is_direct f = true ∧ via_hub f = None)
         (generate_flight_network get_distance).
Proof. exact (generate_all_direct get_distance MAJOR_HUBS US_AIRPORTS). Qed.

(** X4.  [verify_network_constraints] lists one violation for each flight
    shorter than 150 miles, in the order of the flights, and answers [True]
    exactly when no flight is shorter than 150 miles. *)
Theorem verify_network_constraints_spec
    (format_2f : float -> string) (flights : list Flight) :
  snd (verify_network_constraints format_2f flights)
  = map (violation format_2f)
        (List.filter (fun f => ltb (distance f) f150) flights)
  ∧ (fst (verify_network_constraints format_2f flights) = true
     ↔ Forall (fun f => ltb (distance f) f150 = false) flights).
Proof. split; [apply verify_violations|apply verify_valid_iff]. Qed.

(** X5.  Two airports that are not hubs, the first before the second in
    [US_AIRPORTS], at a distance of at least 150 and less than 1000 miles,
    get a direct flight in each direction, whatever the distances through
    the hubs are. *)
Theorem medium_range_direct_flights
    (get_distance : string -> string -> option float)
    (origin destination : string) (x : float) :
  (origin, destination) ∈ ordered_pairs US_AIRPORTS ->
  origin ∉ MAJOR_HUBS -> destination ∉ MAJOR_HUBS ->
  get_distance origin destination = Some x ->
  geb x f150 = true -> ltb x f1000 = true ->
  direct_flight origin destination x ∈ generate_flight_network get_distance
  ∧ direct_flight destination origin x ∈ generate_flight_network get_distance.
Proof.
  intros Hin Ho Hd E Hx Hs.
  assert (Ht : truth x = true).
  { unfold truth. destruct (eqb x zero) eqn:Hz; [|reflexivity].
    destruct x as [[]|[]| |[] m e]; try discriminate Hz;
      vm_compute in Hx; discriminate Hx. }
  assert (Hc : should_create_direct_flight get_distance origin destination x
                 MAJOR_HUBS = true).
  { unfold should_create_direct_flight.
    now rewrite (leb_not_ltb _ _ Hx), Hs. }
  split; apply generate_flight_network_produced;
    exists (DirectTurn origin destination), x;
    (split; [now apply elem_of_turns|]);
    (split; [cbn [fires]; unfold accepted; tauto|]);
    [left|right; left].
Qed.

(** X5 on BOS and SEA, neither of which is a hub, in a table that puts
    them 600 miles apart. *)
Lemma medium_range_direct_flights_witness :
  direct_flight "SEA" "BOS" f600 ∈ generate_flight_network uniform_distance
  ∧ direct_flight "BOS" "SEA" f600 ∈ generate_flight_network uniform_distance.
Proof.
  apply (medium_range_direct_flights uniform_distance "SEA" "BOS" f600);
    [compute_done|compute_done|compute_done|reflexivity|reflexivity|reflexivity].
Defined.

(** X6.  Sorting neither drops nor repeats an option: the result of
    [get_route_options] is a rearrangement of the direct option, if there is
    one, followed by the options through the hubs. *)
Theorem get_route_options_permutation
    (origin destination : string) (flights : list Flight) :
  get_route_options origin destination flights
  ≡ₚ direct_option origin destination flights
     ++ flat_map (hub_option origin destination flights) MAJOR_HUBS.
Proof. unfold get_route_options, route_options. apply sort_by_distance_perm. Qed.

(** X7.  The set of processed pairs never changes the outcome of the
    generation: no pair of codes comes up twice in the three loops, in either
    order, so the generated list is the list that the turns of the loops put
    out one after the other, in order, each decided by the distance tests of
    its loop body alone. *)
Theorem generated_flights_without_processed_pairs
    (get_distance : string -> string -> option float) :
  generate_flight_network get_distance
  = flat_map (turn_output get_distance MAJOR_HUBS)
             (turns MAJOR_HUBS US_AIRPORTS).
Proof. apply generate_flight_network_output. Qed.

(** X8.  The generated network is exactly this set of flights, each with the
    distance [x] that [get_distance a b] returns, when that distance is
    resolved, non-zero and at least 150 miles: the flight from [a] to [b]
    for two hubs [a] before [b] in [MAJOR_HUBS]; the flights from [a] to [b]
    and back for an airport [a] of [US_AIRPORTS] that is not a hub and a hub
    [b]; and the flights from [a] to [b] and back for two airports that are
    not hubs, [a] before [b] in [US_AIRPORTS], when
    [should_create_direct_flight] accepts the distance. *)
Theorem generated_flights_characterised
    (get_distance : string -> string -> option float) (f : Flight) :
  f ∈ generate_flight_network get_distance
  ↔ ∃ a b x,
      get_distance a b = Some x ∧ truth x = true ∧ geb x f150 = true
      ∧ (((a, b) ∈ ordered_pairs MAJOR_HUBS ∧ f = direct_flight a b x)
         ∨ (a ∈ US_AIRPORTS ∧ (a ∉ MAJOR_HUBS) ∧ b ∈ MAJOR_HUBS
            ∧ (f = direct_flight a b x ∨ f = direct_flight b a x))
         ∨ ((a, b) ∈ ordered_pairs US_AIRPORTS
            ∧ (a ∉ MAJOR_HUBS) ∧ (b ∉ MAJOR_HUBS)
            ∧ should_create_direct_flight get_distance a b x MAJOR_HUBS = true
            ∧ (f = direct_flight a b x ∨ f = direct_flight b a x))).
Proof.
  rewrite generate_flight_network_produced. unfold produced. split.
  - intros (t & x & Ht & Hx & Hf). apply elem_of_turns in Ht.
    destruct t as [a b|a b|a b]; exists a, b, x; cbn [fires turn_flights] in *.
    + apply list_elem_of_singleton in Hf. unfold accepted in Hx. tauto.
    + apply elem_of_cons in Hf as [Hf|Hf%list_elem_of_singleton];
        unfold accepted in Hx; tauto.
    + apply elem_of_cons in Hf as [Hf|Hf%list_elem_of_singleton];
        unfold accepted in Hx; tauto.
  - intros (a & b & x & E & Ht & Hx & [(Hin & ->)|[H|H]]).
    + exists (HubTurn a b), x. rewrite elem_of_turns.
      cbn [fires turn_flights]. unfold accepted.
      repeat split; try assumption. left.
    + destruct H as (Ha & Hn & Hb & Hf).
      exists (SpokeTurn a b), x. rewrite elem_of_turns.
      cbn [fires turn_flights]. unfold accepted.
      repeat split; try assumption.
      destruct Hf as [-> | ->]; [left|right; left].
    + destruct H as (Hin & Ha & Hb & Hs & Hf).
      exists (DirectTurn a b), x. rewrite elem_of_turns.
      cbn [fires turn_flights]. unfold accepted.
      repeat split; try assumption.
      destruct Hf as [-> | ->]; [left|right; left].
Qed.

(** X9.  The generated network has no flight from an airport to itself and
    no two flights with the same origin and the same destination, whatever
    [get_distance] answers. *)
Theorem generated_flights_distinct
    (get_distance : string -> string -> option float) :
  NoDup (map endpoints (generate_flight_network get_distance))
  ∧ Forall (fun f => origin f ≠ destination f)
           (generate_flight_network get_distance).
Proof.
  split; [apply generate_flight_network_NoDup|].
  apply Forall_forall. intros f Hf.
  now apply generate_flight_network_no_loop in Hf.
Qed.

(** X10.  Outside the hub-to-hub connections the generated network is
    symmetric: with a flight that does not join two hubs, it has the flight
    in the other direction, with the same distance. *)
Theorem generated_return_flight
    (get_distance : string -> string -> option float) (f : Flight) :
  f ∈ generate_flight_network get_distance ->
  origin f ∉ MAJOR_HUBS ∨ destination f ∉ MAJOR_HUBS ->
  reverse_flight f ∈ generate_flight_network get_distance.
Proof.
  rewrite !generate_flight_network_produced.
  intros (t & x & Ht & Hx & Hf) Hn. exists t, x.
  split; [exact Ht|]. split; [exact Hx|].
  destruct t as [a b|a b|a b]; cbn [turn_flights] in *.
  - apply elem_of_turns in Ht. apply elem_of_ordered_pairs_r in Ht as [Ha Hb].
    apply list_elem_of_singleton in Hf as ->. simpl in Hn. tauto.
  - apply elem_of_cons in Hf as [->|Hf%list_elem_of_singleton];
      [right; left|subst f; left].
  - apply elem_of_cons in Hf as [->|Hf%list_elem_of_singleton];
      [right; left|subst f; left].
Qed.

(** X10 on the flight from JFK to the hub ORD of the sample table. *)
Lemma generated_return_flight_witness :
  direct_flight "ORD" "JFK" f600 ∈ generate_flight_network sample_distance.
Proof.
  apply (generated_return_flight sample_distance (direct_flight "JFK" "ORD" f600)).
  - apply (generate_spoke_flights sample_distance MAJOR_HUBS US_AIRPORTS
             "JFK" "ORD" f600);
      [compute_done|compute_done|compute_done|reflexivity|reflexivity|reflexivity].
  - left. compute_done.
Defined.

(** X11.  [calculate_minimum_distance_through_hubs] answers either
    [(inf, None)] or a hub of the list, other than the origin and the
    destination, whose two legs are resolved and non-zero, together with the
    sum of those two legs.  The distance it answers is never NaN. *)
Theorem minimum_hub_distance_is_a_route
    (get_distance : string -> string -> option float)
    (origin destination : string) (hubs : list string) :
  let result :=
    calculate_minimum_distance_through_hubs get_distance origin destination hubs in
  is_nan result.1 = false
  ∧ (result = (inf, None)
     ∨ ∃ hub, result.2 = Some hub ∧ hub ∈ hubs
            ∧ hub_route get_distance origin destination hub result.1).
Proof.
  unfold calculate_minimum_distance_through_hubs.
  destruct (hub_search get_distance origin destination hubs (inf, None))
    as (Hn & _ & Hb & _); [reflexivity|].
  split; [exact Hn|]. destruct Hb as [E|(hub & Hin & Hb & Hr)]; [now left|].
  right. exists hub. done.
Qed.

(** X12.  The distance that [calculate_minimum_distance_through_hubs]
    answers is a minimum: it is at most the total of every hub of the list,
    other than the origin and the destination, whose two legs are resolved
    and non-zero, when that total is not NaN. *)
Theorem minimum_hub_distance_is_least
    (get_distance : string -> string -> option float)
    (origin destination : string) (hubs : list string)
    (hub : string) (total : float) :
  hub ∈ hubs ->
  hub_route get_distance origin destination hub total ->
  is_nan total = false ->
  leb (calculate_minimum_distance_through_hubs
         get_distance origin destination hubs).1 total = true.
Proof.
  intros Hin Hr Ht. unfold calculate_minimum_distance_through_hubs.
  destruct (hub_search get_distance origin destination hubs (inf, None))
    as (_ & _ & _ & Hm); [reflexivity|].
  now apply (Hm hub total).
Qed.

(** X12 on BOS and SEA of the sample table, through the hub DEN: two legs
    of 600 miles. *)
Lemma minimum_hub_distance_is_least_witness :
  leb (calculate_minimum_distance_through_hubs
         sample_distance "BOS" "SEA" MAJOR_HUBS).1 f1200 = true.
Proof.
  apply (minimum_hub_distance_is_least sample_distance "BOS" "SEA" MAJOR_HUBS
           "DEN" f1200).
  - compute_done.
  - split; [discriminate|]. split; [discriminate|].
    exists f600, f600. repeat split; reflexivity.
  - reflexivity.
Defined.

(** X13.  [get_route_options] invents nothing: each of its options is the
    direct option of a direct flight of the list from the origin to the
    destination, or a connection of two flights of the list, from the origin
    to a hub of [MAJOR_HUBS] and on to the destination, with the sum of their
    distances, where the hub is neither the origin nor the destination.
    There is at most one option more than there are hubs. *)
Theorem get_route_options_sound
    (origin destination : string) (flights : list Flight) :
  Forall (backed_by MAJOR_HUBS flights origin destination)
         (get_route_options origin destination flights)
  ∧ (length (get_route_options origin destination flights)
     ≤ 1 + length MAJOR_HUBS)%nat.
Proof.
  split; [apply route_options_backed|].
  unfold get_route_options, route_options.
  rewrite sort_by_distance_length, length_app.
  pose proof (direct_option_length origin destination flights).
  pose proof (hub_options_length origin destination flights MAJOR_HUBS).
  lia.
Qed.

(** X14.  On a list with no two flights on the same edge, as the generated
    network is, [get_route_options] misses nothing: every direct flight of
    the list is the direct option between its two airports, and every two
    flights of the list that meet at a hub of [MAJOR_HUBS], other than the
    origin of the first and the destination of the second, are a connection
    between those two airports. *)
Theorem get_route_options_complete (flights : list Flight) :
  NoDup (map endpoints flights) ->
  (∀ f, f ∈ flights -> is_direct f = true ->
     direct_route f ∈ get_route_options (origin f) (destination f) flights)
  ∧ (∀ leg1 leg2, leg1 ∈ flights -> leg2 ∈ flights ->
       destination leg1 = origin leg2 -> origin leg2 ∈ MAJOR_HUBS ->
       origin leg2 ≠ origin leg1 -> origin leg2 ≠ destination leg2 ->
       hub_connection leg1 leg2
       ∈ get_route_options (origin leg1) (destination leg2) flights).
Proof.
  intros Hnd. split.
  - intros f Hf Hd. apply elem_of_route_options. left.
    unfold direct_option. rewrite (legs_unique flights f Hnd Hf). simpl.
    rewrite Hd. left.
  - intros leg1 leg2 H1 H2 Hm Hh Ho Hd. apply elem_of_route_options. right.
    exists (origin leg2). split; [exact Hh|].
    unfold hub_option. rewrite bool_decide_eq_false_2 by tauto.
    rewrite <- Hm at 1. rewrite (legs_unique flights leg1 Hnd H1).
    rewrite (legs_unique flights leg2 Hnd H2). left.
Qed.

(** X14 on the network generated from the sample table: the flight from BOS
    to DEN is a direct option, and with the flight from DEN to SEA it is a
    connection from BOS to SEA of 1200 miles. *)
Lemma get_route_options_complete_witness :
  mkRouteOption "direct" ["BOS"; "DEN"] f600 0 None
  ∈ get_route_options "BOS" "DEN" (generate_flight_network sample_distance)
  ∧ mkRouteOption "hub_connection" ["BOS"; "DEN"; "SEA"] f1200 1 (Some "DEN")
    ∈ get_route_options "BOS" "SEA" (generate_flight_network sample_distance).
Proof.
  pose proof (generate_spoke_flights sample_distance MAJOR_HUBS US_AIRPORTS
                "BOS" "DEN" f600) as [B _];
    [compute_done|compute_done|compute_done|reflexivity|reflexivity|reflexivity|].
  pose proof (generate_spoke_flights sample_distance MAJOR_HUBS US_AIRPORTS
                "SEA" "DEN" f600) as [_ S];
    [compute_done|compute_done|compute_done|reflexivity|reflexivity|reflexivity|].
  destruct (get_route_options_complete (generate_flight_network sample_distance)
              (TurnFacts.generate_flight_network_NoDup sample_distance))
    as [Hd Hc].
  split.
  - exact (Hd (direct_flight "BOS" "DEN" f600) B eq_refl).
  - refine (Hc (direct_flight "BOS" "DEN" f600) (direct_flight "DEN" "SEA" f600)
               B S eq_refl _ _ _); [compute_done|discriminate|discriminate].
Defined.

(** X15.  In the statistics of any list of flights, the numbers of direct
    flights, of hub connections and of unique routes are between 0 and the
    number of flights, and the number of unique routes is 0 only for the
    empty list.  On the empty list the total and the average distance are
    the integer 0, with no division.  On every other list they are floats:
    the sum of the distances rounded to two places, and that sum, before it
    is rounded, divided by the number of flights and rounded to two
    places. *)
Theorem analyze_network_statistics_counts
    (float_sum : list float -> float) (round_2 : float -> float)
    (flights : list Flight) :
  let stats := analyze_network_statistics float_sum round_2 flights in
  (0 <= direct_flights stats <= total_flights stats)%Z
  ∧ (0 <= hub_connections stats <= total_flights stats)%Z
  ∧ (0 <= unique_routes stats <= total_flights stats)%Z
  ∧ (unique_routes stats = 0%Z ↔ flights = [])
  ∧ match flights with
    | [] =>
        total_network_distance stats = Int 0
        ∧ average_flight_distance stats = Int 0
    | _ :: _ =>
        let total := float_sum (map distance flights) in
        total_network_distance stats = Float (round_2 total)
        ∧ average_flight_distance stats
          = Float (round_2 (div total (float_of_int (total_flights stats))))
    end.
Proof.
  unfold analyze_network_statistics, len. cbn [direct_flights hub_connections
    unique_routes total_flights average_flight_distance total_network_distance].
  pose proof (filter_length_le is_direct flights).
  pose proof (filter_length_le
                (fun f => bool_decide (origin f ∈ MAJOR_HUBS)
                          || bool_decide (destination f ∈ MAJOR_HUBS)) flights).
  pose proof (size_unique_pairs_le flights).
  pose proof (size_unique_pairs_zero flights) as Hz.
  split; [lia|]. split; [lia|]. split; [lia|]. split.
  - split; [|now intros ->]. intros E. apply Hz. lia.
  - destruct flights; split; reflexivity.
Qed.

(** X16.  The number of unique routes does not depend on the direction of
    the flights: it is the same when every flight is reversed, and the same
    when the return flight of every flight is added to the list. *)
Theorem unique_routes_ignores_direction
    (float_sum : list float -> float) (round_2 : float -> float)
    (flights : list Flight) :
  unique_routes (analyze_network_statistics float_sum round_2
                   (map reverse_flight flights))
  = unique_routes (analyze_network_statistics float_sum round_2 flights)
  ∧ unique_routes (analyze_network_statistics float_sum round_2
                     (flights ++ map reverse_flight flights))
    = unique_routes (analyze_network_statistics float_sum round_2 flights).
Proof.
  unfold analyze_network_statistics. cbn [unique_routes].
  rewrite unique_pairs_app, unique_pairs_reverse,
    (union_idemp_L (unique_pairs flights)).
  split; reflexivity.
Qed.

(** X17.  In the statistics of a generated network every flight counts as a
    direct flight, and the number of flights is at least the number of unique
    routes and at most twice that number. *)
Theorem generated_network_statistics
    (float_sum : list float -> float) (round_2 : float -> float)
    (get_distance : string -> string -> option float) :
  let stats :=
    analyze_network_statistics float_sum round_2
      (generate_flight_network get_distance) in
  direct_flights stats = total_flights stats
  ∧ (unique_routes stats <= total_flights stats <= 2 * unique_routes stats)%Z.
Proof.
  unfold analyze_network_statistics, len.
  cbn [direct_flights unique_routes total_flights].
  pose proof (size_unique_pairs_le (generate_flight_network get_distance)).
  pose proof (length_le_unique_pairs (generate_flight_network get_distance)
                (TurnFacts.generate_flight_network_NoDup get_distance)).
  split; [|lia].
  rewrite filter_all; [reflexivity|].
  assert (H1 : Forall (fun f => is_direct f = true ∧ via_hub f = None)
                 (generate_flight_network get_distance))
    by exact (generate_all_direct get_distance MAJOR_HUBS US_AIRPORTS).
  eapply Forall_impl; [exact H1|]. now intros f [Hd _].
Qed.

Section CatalogProperties.

Import PyStr PyExc AirportReference CatalogFacts.

Variable str : StrModule.

(** X18.  The lookups do not depend on the case of the letters of a code:
    for two spellings that differ only in the case of ASCII letters,
    [get_airport], [get_coordinates] and [get_airport_info] answer the same,
    and so do [get_distance] and [get_route_info] with either spelling in
    either place. *)
Theorem lookup_ignores_case (code1 code2 : string) :
  same_letters code1 code2 ->
  get_airport str code1 = get_airport str code2
  ∧ get_coordinates str code1 = get_coordinates str code2
  ∧ get_airport_info str code1 = get_airport_info str code2
  ∧ (∀ math other unit,
       get_distance str math code1 other unit
       = get_distance str math code2 other unit
       ∧ get_distance str math other code1 unit
         = get_distance str math other code2 unit)
  ∧ (∀ math other,
       get_route_info str math code1 other = get_route_info str math code2 other
       ∧ get_route_info str math other code1
         = get_route_info str math other code2).
Proof.
  intros H%(str_upper_letters str).
  assert (E : get_airport str code1 = get_airport str code2)
    by (unfold get_airport; now rewrite H).
  split; [exact E|].
  unfold get_coordinates, get_airport_info, get_route_info, get_distance.
  rewrite E. repeat split; reflexivity.
Qed.

(** X19.  An airport found under a code carries that code, in upper case,
    as its [iata], and looking its [iata] up gives the same airport again. *)
Theorem get_airport_round_trip (code : string) (airport : Airport) :
  get_airport str code = Some airport ->
  iata airport = str_upper str code
  ∧ get_airport str (iata airport) = Some airport.
Proof. apply get_airport_iata. Qed.

(** X20.  [get_route_info] answers [None] exactly when [get_distance]
    does, that is when one of the codes is not in the catalog.  In the
    dictionary it returns otherwise, neither distance is [None], the
    distance in kilometers is the distance in miles multiplied by 1.60934,
    and the two endpoints carry the codes in upper case and the coordinates
    that [get_coordinates] gives. *)
Theorem get_route_info_spec (math : MathModule) (iata1 iata2 : string) :
  (get_route_info str math iata1 iata2 = Return None
   ↔ get_distance str math iata1 iata2 "miles" = Return None)
  ∧ (∀ info, get_route_info str math iata1 iata2 = Return (Some info) ->
       ∃ miles,
         get_distance str math iata1 iata2 "miles" = Return (Some miles)
         ∧ route_distance_miles info = Some miles
         ∧ route_distance_kilometers info = Some (mul miles f1_60934)
         ∧ end_iata (route_origin info) = str_upper str iata1
         ∧ end_iata (route_destination info) = str_upper str iata2
         ∧ get_coordinates str iata1 = Some (end_coordinates (route_origin info))
         ∧ get_coordinates str iata2
           = Some (end_coordinates (route_destination info))).
Proof.
  destruct (unit_is_km_names str) as [Hm Hk].
  unfold get_route_info, get_coordinates, get_distance.
  destruct (get_airport str iata1) as [a1|] eqn:E1;
    [|split; [tauto|discriminate]].
  destruct (get_airport str iata2) as [a2|] eqn:E2;
    [|split; [tauto|discriminate]].
  rewrite Hm, Hk.
  destruct (haversine_distance math _ _ _ _) as [miles|e]; simpl;
    [|split; [split; discriminate|discriminate]].
  split; [split; discriminate|].
  intros info [= <-]. exists miles. simpl.
  destruct (get_airport_iata str _ _ E1) as [-> _].
  destruct (get_airport_iata str _ _ E2) as [-> _].
  repeat split; reflexivity.
Qed.

(** X21.  The codes that [get_airport] finds are those whose upper-case
    form is a code of [US_AIRPORTS] or CDG, so [get_distance] never answers
    [None] for a pair of airports that the generator works with. *)
Theorem catalog_covers_network :
  (∀ code, is_Some (get_airport str code)
           ↔ str_upper str code ∈ FlightNetwork.US_AIRPORTS ++ ["CDG"])
  ∧ (∀ math,
       Forall (fun a =>
                 Forall (fun b => get_distance_miles str math a b ≠ Return None)
                        FlightNetwork.US_AIRPORTS)
              FlightNetwork.US_AIRPORTS).
Proof.
  assert (H : ∀ code, is_Some (get_airport str code)
                      ↔ str_upper str code ∈ FlightNetwork.US_AIRPORTS ++ ["CDG"])
    by (intros code; apply AIRPORTS_is_Some).
  split; [exact H|]. intros math.
  apply Forall_forall. intros a Ha. apply Forall_forall. intros b Hb.
  unfold get_distance_miles, get_distance.
  destruct (proj2 (H a)) as [a1 ->].
  { rewrite str_upper_code; apply elem_of_app; now left. }
  destruct (proj2 (H b)) as [b1 ->].
  { rewrite str_upper_code; apply elem_of_app; now left. }
  destruct (haversine_distance math _ _ _ _) as [d|e]; simpl; [|discriminate].
  destruct (unit_is_km str "miles"); discriminate.
Qed.

End CatalogProperties.

(** X18 on two spellings of the code of Atlanta. *)
Lemma lookup_ignores_case_witness :
  AirportReference.get_airport ascii_str "atl"
  = AirportReference.get_airport ascii_str "ATL".
Proof.
  apply (lookup_ignores_case ascii_str "atl" "ATL"). reflexivity.
Defined.

(** X19 on the code of Atlanta in lower case. *)
Lemma get_airport_round_trip_witness :
  ∃ airport, AirportReference.get_airport ascii_str "atl" = Some airport
             ∧ AirportReference.iata airport = "ATL".
Proof.
  destruct (AirportReference.get_airport ascii_str "atl") as [a|] eqn:E;
    [|vm_compute in E; discriminate].
  exists a. split; [reflexivity|].
  apply (get_airport_round_trip ascii_str "atl" a E).
Defined.

(** X20 on the route from Atlanta to New York. *)
Lemma get_route_info_spec_witness :
  ∃ info miles,
    AirportReference.get_route_info ascii_str sample_math "atl" "JFK"
    = PyExc.Return (Some info)
    ∧ AirportReference.route_distance_miles info = Some miles
    ∧ AirportReference.route_distance_kilometers info = Some (mul miles f1_60934).
Proof.
  destruct (AirportReference.get_route_info ascii_str sample_math "atl" "JFK")
    as [[info|]|e] eqn:E; [|vm_compute in E; discriminate..].
  destruct (proj2 (get_route_info_spec ascii_str sample_math "atl" "JFK") info E)
    as (miles & _ & Hm & Hk & _).
  exists info, miles. split; [reflexivity|]. split; assumption.
Defined.

Section SamePoint.

Import PyExc AirportReference HaversineFacts.

Variable str : PyStr.StrModule.
Variable math : MathModule.

(** X22.  For a math module whose sine, square, square root and arc sine
    map [0.0] to [0.0], the haversine distance from a point to itself is
    [0.0] when the point has finite radians and the cosine of its latitude
    has a finite square.  The distance from an airport of the catalog to
    itself is then [0.0], which the generator reads as false. *)
Theorem haversine_distance_same_point (lat lon cos_lat : float) :
  math_sin math zero = Some zero -> square math zero = Some zero ->
  math_sqrt math zero = Some zero -> math_asin math zero = Some zero ->
  is_finite (math_radians math lat) = true ->
  is_finite (math_radians math lon) = true ->
  math_cos math (math_radians math lat) = Some cos_lat ->
  is_finite (mul cos_lat cos_lat) = true ->
  haversine_distance math lat lon lat lon = Return zero
  ∧ (∀ code airport,
       get_airport str code = Some airport ->
       latitude airport = lat -> longitude airport = lon ->
       get_distance_miles str math code code = Return (Some zero)
       ∧ truthy (Some zero) = false).
Proof.
  intros Hsin Hsq Hsqrt Hasin Hlat Hlon Hcos Hfin.
  assert (H : haversine_distance math lat lon lat lon = Return zero).
  { unfold haversine_distance, haversine_a.
    rewrite (sub_diag _ Hlat), (sub_diag _ Hlon).
    change (div zero f2) with zero.
    repeat (first [rewrite Hsin|rewrite Hsq|rewrite Hcos]; simpl).
    destruct (mul_finite_zero _ Hfin) as [s ->].
    destruct s; fold zero; rewrite Hsqrt; simpl; rewrite Hasin; reflexivity. }
  split; [exact H|].
  intros code airport E <- <-.
  unfold get_distance_miles, get_distance. rewrite E, H. simpl.
  destruct (CatalogFacts.unit_is_km_names str) as [-> _].
  split; reflexivity.
Qed.

End SamePoint.

(** X22 on the sample math module at the coordinates of Atlanta. *)
Lemma haversine_distance_same_point_witness :
  AirportReference.haversine_distance sample_math
    atl_latitude atl_longitude atl_latitude atl_longitude = PyExc.Return zero
  ∧ sample_get_distance "ATL" "ATL" "miles" = PyExc.Return (Some zero).
Proof.
  destruct (haversine_distance_same_point ascii_str sample_math
              atl_latitude atl_longitude f1)
    as [H1 H2]; try (vm_compute; reflexivity).
  split; [exact H1|].
  destruct (AirportReference.get_airport ascii_str "ATL") as [a|] eqn:E;
    [|vm_compute in E; discriminate].
  apply (H2 "ATL" a E); vm_compute in E; injection E as <-; reflexivity.
Defined.
